(** * Wildfire: a shallow embedding of [wildfire.js] and its properties

    The development follows the source file top to bottom.  JavaScript
    numbers that the program handles (pixel coordinates, grid indices, dice
    totals) are integers and are modelled by [Z].  Objects that the program
    shares by reference (token data) live in an explicit store, so that the
    copying discipline of the [token] accessor can be stated and proved. *)

From Stdlib Require Import Ascii String ZArith.
From stdpp Require Import base option list strings numbers.

Local Open Scope string_scope.
Local Open Scope list_scope.
Local Open Scope Z_scope.

(** ** JavaScript values reaching the comparison in [spreadToCell] *)

Module Js.

(** [chance.target] is documented as a number, but the constructor's
    default passes the string ["1"]; both kinds reach [total < target].
    [Num n] is a Number whose value is the integer [n]. *)
Inductive value :=
| Num (n : Z)
| Str (s : string).

(** A Number value: NaN, an infinity, or the finite value [m * 2 ^ e]. *)
Inductive number :=
| NaN
| Infinity (negative : bool)
| Finite (m e : Z).

Definition code (a : ascii) : Z := Z.of_nat (nat_of_ascii a).

(** [starts p s]: what follows the bytes [p] at the head of [s]. *)
Fixpoint starts (p : list Z) (s : string) : option string :=
  match p, s with
  | [], _ => Some s
  | c :: p, String a rest => if code a =? c then starts p rest else None
  | _ :: _, EmptyString => None
  end.

(** StrWhiteSpaceChar: WhiteSpace and LineTerminator, in UTF-8. *)
Definition StrWhiteSpaceChar : list (list Z) :=
  [[9]; [10]; [11]; [12]; [13]; [32]; [194; 160]; [225; 154; 128];
   [226; 128; 128]; [226; 128; 129]; [226; 128; 130]; [226; 128; 131];
   [226; 128; 132]; [226; 128; 133]; [226; 128; 134]; [226; 128; 135];
   [226; 128; 136]; [226; 128; 137]; [226; 128; 138]; [226; 128; 168];
   [226; 128; 169]; [226; 128; 175]; [226; 129; 159]; [227; 128; 128];
   [239; 187; 191]].

Definition white (s : string) : option string :=
  foldr (fun p r => match starts p s with Some rest => Some rest | None => r end)
        None StrWhiteSpaceChar.

Fixpoint trim (fuel : nat) (s : string) : string :=
  match fuel with
  | O => s
  | S fuel =>
      match white s with
      | Some rest => trim fuel rest
      | None => s
      end
  end.

Definition StrWhiteSpace (s : string) : string := trim (String.length s) s.

(** The value of a digit in [base], for bases up to 16. *)
Definition digit (base : Z) (a : ascii) : option Z :=
  let c := code a in
  let v := if (48 <=? c) && (c <=? 57) then c - 48
           else if (97 <=? c) && (c <=? 102) then c - 87
           else if (65 <=? c) && (c <=? 70) then c - 55
           else base in
  if v <? base then Some v else None.

(** The longest run of digits at the head of [s]: its value on top of
    [acc], the count of digits on top of [count], and what follows. *)
Fixpoint digits (base acc : Z) (count : nat) (s : string) : Z * nat * string :=
  match s with
  | EmptyString => (acc, count, s)
  | String a rest =>
      match digit base a with
      | Some d => digits base (base * acc + d) (S count) rest
      | None => (acc, count, s)
      end
  end.

(** An optional sign at the head of [s]. *)
Definition sign (s : string) : bool * string :=
  match s with
  | String "-"%char rest => (true, rest)
  | String "+"%char rest => (false, rest)
  | _ => (false, s)
  end.

(** ExponentPart, when [s] starts with one: its value and what follows. *)
Definition ExponentPart (s : string) : Z * string :=
  match s with
  | String a rest =>
      if (code a =? 101) || (code a =? 69) then
        let '(negative, r) := sign rest in
        let '(v, n, r) := digits 10 0 0%nat r in
        match n with
        | O => (0, s)
        | _ => (if negative : bool then - v else v, r)
        end
      else (0, s)
  | EmptyString => (0, s)
  end.

(** The mathematical value of a literal: an infinity, or [m * 10 ^ e]. *)
Inductive MV :=
| Unbounded
| Decimal (m e : Z).

Definition StrUnsignedDecimalLiteral (s : string) : option (MV * string) :=
  match starts [73; 110; 102; 105; 110; 105; 116; 121] s with
  | Some rest => Some (Unbounded, rest)
  | None =>
      let '(i, ni, r) := digits 10 0 0%nat s in
      let '(m, nf, r) :=
        match r with
        | String "."%char r' => digits 10 i 0%nat r'
        | _ => (i, 0%nat, r)
        end in
      match ni, nf with
      | O, O => None
      | _, _ =>
          let '(x, r) := ExponentPart r in
          Some (Decimal m (x - Z.of_nat nf), r)
      end
  end.

(** 0x, 0o and 0b literals, which take no sign. *)
Definition NonDecimalIntegerLiteral (s : string) : option (MV * string) :=
  match s with
  | String "0"%char (String a rest) =>
      let c := code a in
      let base := if (c =? 120) || (c =? 88) then 16
                  else if (c =? 111) || (c =? 79) then 8
                  else if (c =? 98) || (c =? 66) then 2
                  else 0 in
      if base =? 0 then None
      else
        let '(v, n, r) := digits base 0 0%nat rest in
        match n with
        | O => None
        | _ => Some (Decimal v 0, r)
        end
  | _ => None
  end.

(** The Number value for the positive rational [num / den]: the nearest
    double, ties to the even significand; subnormal below [2 ^ -1022] and
    infinite from [2 ^ 1024] on. *)
Definition RoundToDouble (negative : bool) (num den : Z) : number :=
  let scaled (k : Z) :=
    if 0 <=? k then (num, Z.shiftl den k) else (Z.shiftl num (- k), den) in
  let k1 := Z.log2 num - Z.log2 den - 52 in
  let k := Z.max (-1074)
             (let '(n, d) := scaled k1 in
              if n / d <? 2 ^ 52 then k1 - 1 else k1) in
  let '(n, d) := scaled k in
  let q := n / d in
  let r := n mod d in
  let M := if 2 * r <? d then q
           else if d <? 2 * r then q + 1
           else if Z.even q then q else q + 1 in
  if (971 <? k) || ((k =? 971) && (M =? 2 ^ 53)) then Infinity negative
  else Finite (if negative then - M else M) k.

Definition RoundMV (negative : bool) (x : MV) : number :=
  match x with
  | Unbounded => Infinity negative
  | Decimal m e =>
      if m =? 0 then Finite 0 0
      else if 0 <=? e then RoundToDouble negative (m * 10 ^ e) 1
      else RoundToDouble negative m (10 ^ (- e))
  end.

(** StringToNumber: white space around one StrNumericLiteral, or around
    nothing, which is 0; anything else is NaN.  A string is its UTF-8
    bytes.  For literals of more than 20 significant digits, where the
    standard leaves the choice open, the exact value is rounded as
    every current engine does. *)
Definition StringToNumber (s : string) : number :=
  let s := StrWhiteSpace s in
  match s with
  | EmptyString => Finite 0 0
  | _ =>
      let literal :=
        match NonDecimalIntegerLiteral s with
        | Some (x, rest) => Some (false, x, rest)
        | None =>
            let '(negative, r) := sign s in
            match StrUnsignedDecimalLiteral r with
            | Some (x, rest) => Some (negative, x, rest)
            | None => None
            end
        end in
      match literal with
      | Some (negative, x, rest) =>
          match StrWhiteSpace rest with
          | EmptyString => RoundMV negative x
          | _ => NaN
          end
      | None => NaN
      end
  end.

(** ToNumeric on the two kinds of value that reach the comparison. *)
Definition ToNumeric (v : value) : number :=
  match v with
  | Num n => Finite n 0
  | Str s => StringToNumber s
  end.

(** The integer that a Number value is, when it is one. *)
Definition integer (x : number) : option Z :=
  match x with
  | Finite m e =>
      if 0 <=? e then Some (Z.shiftl m e)
      else if Z.land m (Z.ones (- e)) =? 0 then Some (Z.shiftr m (- e))
      else None
  | _ => None
  end.

(** The integer that a value converts to, when it converts to one. *)
Definition ToNumber (v : value) : option Z := integer (ToNumeric v).

(** [total < x] on Number values, for an integer [total]: false when
    [x] is NaN. *)
Definition less (total : Z) (x : number) : bool :=
  match x with
  | NaN => false
  | Infinity negative => negb negative
  | Finite m e =>
      if 0 <=? e then total <? Z.shiftl m e else Z.shiftl total (- e) <? m
  end.

(** [total < target] for a numeric [total]: the right operand is converted
    with ToNumeric, then the two numbers are compared. *)
Definition lt (total : Z) (target : value) : bool :=
  less total (ToNumeric target).

End Js.

(** ** The host: grid, object store, canvas *)

Abbreviation Cell := (Z * Z)%type (only parsing).
Abbreviation Point := (Z * Z)%type (only parsing).

(** [canvas.grid.grid]: the three queries and the cell width that the
    program uses.  The grid belongs to the host and is a parameter. *)
Module Grid.
Record t := {
  getGridPositionFromPixels : Z -> Z -> Cell;
  getPixelsFromGridPosition : Z -> Z -> Point;
  getNeighbors : Z -> Z -> list Cell;
  w : Z
}.
End Grid.

(** The host's square grid of cell size [size], used for concrete scenes:
    [row, col] sits at pixel [col * size, row * size] and has the eight
    surrounding cells as neighbours. *)
Definition squareGrid (size : Z) : Grid.t := {|
  Grid.getGridPositionFromPixels x y := (y / size, x / size);
  Grid.getPixelsFromGridPosition row col := (col * size, row * size);
  Grid.getNeighbors row col :=
    map (fun o : Z * Z => (row + fst o, col + snd o))
        [(-1, -1); (-1, 0); (-1, 1); (0, -1); (0, 1); (1, -1); (1, 0); (1, 1)];
  Grid.w := size
|}.

(** The data object of a token: position, appearance and the module's flag
    [flags.wildfire.fire]. *)
Record TokenData := {
  data_x : Z;
  data_y : Z;
  data_name : string;
  data_img : string;
  data_fire : bool
}.

Global Instance TokenData_inhabited : Inhabited TokenData :=
  populate {| data_x := 0; data_y := 0; data_name := ""; data_img := "";
              data_fire := false |}.

Global Instance TokenData_eq_dec : EqDecision TokenData.
Proof. solve_decision. Defined.

(** Data objects are shared by reference: a reference is an index into the
    store. *)
Abbreviation ref := nat (only parsing).
Abbreviation Store := (list TokenData) (only parsing).

(** Modelled from the spec: the host's [duplicate(original)], which is not
    part of the sources, returns a deep copy: a new object with the
    contents of [original] that shares nothing with it. *)
Definition duplicate (h : Store) (original : ref) : Store * ref :=
  (h ++ [h !!! original], length h).

(** A placed token: its own position and a reference to its data. *)
Record Token := {
  token_x : Z;
  token_y : Z;
  token_data : ref
}.

Global Instance Token_eq_dec : EqDecision Token.
Proof. solve_decision. Defined.

(** A drawing: [data.x], [data.y], the extent [width] and [height], and the
    module's flag [flags.wildfire.flammable]. *)
Record Drawing := {
  drawing_x : Z;
  drawing_y : Z;
  drawing_width : Z;
  drawing_height : Z;
  drawing_flammable : bool
}.

(** What the program reads and writes outside its own instance: the store,
    the placed tokens and drawings, and two histories, the dice rolls made
    (each with the cell it was made for) and the counts notified. *)
Record World := {
  store : Store;
  tokens : list Token;
  drawings : list Drawing;
  rolled : list (Cell * Z);
  notified : list nat
}.

Definition with_store (h : Store) (W : World) : World :=
  {| store := h; tokens := tokens W; drawings := drawings W;
     rolled := rolled W; notified := notified W |}.

Definition with_tokens (ts : list Token) (W : World) : World :=
  {| store := store W; tokens := ts; drawings := drawings W;
     rolled := rolled W; notified := notified W |}.

Definition with_rolled (r : list (Cell * Z)) (W : World) : World :=
  {| store := store W; tokens := tokens W; drawings := drawings W;
     rolled := r; notified := notified W |}.

Definition with_notified (n : list nat) (W : World) : World :=
  {| store := store W; tokens := tokens W; drawings := drawings W;
     rolled := rolled W; notified := n |}.

(** ** The class [Wildfire] *)

Record Chance := {
  formula : string;
  target : Js.value
}.

Record Wildfire := {
  _token : ref;
  chance : Chance;
  newFires : list ref;
  spreading : bool
}.

(** An instance together with the world it runs in. *)
Record State := {
  this : Wildfire;
  world : World
}.

Definition with_world (W : World) (s : State) : State :=
  {| this := this s; world := W |}.

Definition with_newFires (l : list ref) (s : State) : State :=
  {| this := {| _token := _token (this s); chance := chance (this s);
                newFires := l; spreading := spreading (this s) |};
     world := world s |}.

Definition with_spreading (b : bool) (s : State) : State :=
  {| this := {| _token := _token (this s); chance := chance (this s);
                newFires := newFires (this s); spreading := b |};
     world := world s |}.

(** How a call, or the promise it returns, settles. *)
Inductive Completion :=
| Returned
| Raised (err : string).

(** The outcome of the host's [createMany], decided by the host. *)
Inductive CommitOutcome :=
| Resolved
| Rejected (err : string).

Section Methods.

(** The scene's grid. *)
Variable grid : Grid.t.

(** The host's randomizer: [Roll f k] is the [total] of
    [new Roll(f).roll()] when [k] rolls have been made before it.  Formulas
    are taken to be well formed, so that a roll yields a total. *)
Variable Roll : string -> nat -> Z.

Definition getGridPos (position : Point) : Cell :=
  Grid.getGridPositionFromPixels grid (fst position) (snd position).

Definition getPixelPos (position : Cell) : Point :=
  Grid.getPixelsFromGridPosition grid (fst position) (snd position).

Definition getNeighbors (position : Cell) : list Cell :=
  Grid.getNeighbors grid (fst position) (snd position).

(** [get token()]: a new copy of [this._token], never the reference. *)
Definition token_get (s : State) : State * ref :=
  let (h, copy) := duplicate (store (world s)) (_token (this s)) in
  (with_world (with_store h (world s)) s, copy).

(** [set token(tkn)]: stores a copy of [tkn.data]. *)
Definition token_set (tkn : Token) (s : State) : State :=
  let (h, copy) := duplicate (store (world s)) (token_data tkn) in
  {| this := {| _token := copy; chance := chance (this s);
                newFires := newFires (this s);
                spreading := spreading (this s) |};
     world := with_store h (world s) |}.

Definition default_chance : Chance :=
  {| formula := "1d1"; target := Js.Str "1" |}.

(** [new Wildfire(prototype, chance)]; an omitted [chance] is [None]. *)
Definition constructor (prototype : Token) (arg : option Chance)
    (W : World) : State :=
  let chance := default default_chance arg in
  token_set prototype
    {| this := {| _token := 0%nat; chance := chance; newFires := [];
                  spreading := false |};
       world := W |}.

Definition realFires (s : State) : list Token :=
  List.filter (fun t => data_fire (store (world s) !!! token_data t))
              (tokens (world s)).

(** The elements of [fires]: placed tokens and pending data objects. *)
Inductive Fire :=
| RealFire (t : Token)
| NewFire (data : ref).

Definition fire_x (s : State) (t : Fire) : Z :=
  match t with
  | RealFire t => token_x t
  | NewFire data => data_x (store (world s) !!! data)
  end.

Definition fire_y (s : State) (t : Fire) : Z :=
  match t with
  | RealFire t => token_y t
  | NewFire data => data_y (store (world s) !!! data)
  end.

Definition fires (s : State) : list Fire :=
  map RealFire (realFires s) ++ map NewFire (newFires (this s)).

Definition flammableAreas (s : State) : list Drawing :=
  List.filter drawing_flammable (drawings (world s)).

Definition gridSize : Z := Grid.w grid.

(** On two numbers [==] is numeric equality. *)
Definition isBurning (s : State) (cell : Cell) : bool :=
  let '(x, y) := getPixelPos cell in
  existsb (fun t => (fire_x s t =? x) && (fire_y s t =? y)) (fires s).

Definition areaContains (area : Drawing) (cell : Cell) : bool :=
  let '(cx, cy) := getPixelPos cell in
  let '(tl1_x, tl1_y) := (drawing_x area, drawing_y area) in
  let '(tl2_x, tl2_y) := (cx, cy) in
  let '(br1_x, br1_y) :=
    (tl1_x + drawing_width area, tl1_y + drawing_height area) in
  let '(br2_x, br2_y) := (tl2_x + gridSize, tl2_y + gridSize) in
  negb ((tl1_x >=? br2_x) ||
        (tl2_x >=? br1_x) ||
        (tl1_y >=? br2_y) ||
        (tl2_y >=? br1_y)).

Definition isInFlammableArea (s : State) (cell : Cell) : bool :=
  existsb (fun area => areaContains area cell) (flammableAreas s).

Definition isFlammable (s : State) (cell : Cell) : bool :=
  negb (isBurning s cell) && isInFlammableArea s cell.

Definition set_x (x : Z) (d : TokenData) : TokenData :=
  {| data_x := x; data_y := data_y d; data_name := data_name d;
     data_img := data_img d; data_fire := data_fire d |}.

Definition set_y (y : Z) (d : TokenData) : TokenData :=
  {| data_x := data_x d; data_y := y; data_name := data_name d;
     data_img := data_img d; data_fire := data_fire d |}.

(** [data.x = x] and [data.y = y]: writes through the reference. *)
Definition write (f : TokenData -> TokenData) (r : ref) (h : Store) : Store :=
  <[r := f (h !!! r)]> h.

Definition light (cell : Cell) (s : State) : State :=
  let '(x, y) := getPixelPos cell in
  let (s1, tkn) := token_get s in
  let (h, data) := duplicate (store (world s1)) tkn in
  let h := write (set_x x) data h in
  let h := write (set_y y) data h in
  with_newFires (newFires (this s1) ++ [data])
                (with_world (with_store h (world s1)) s1).

Definition spreadToCell (cell : Cell) (chance : Chance) (s : State) : State :=
  if negb (isFlammable s cell) then s
  else
    let total := Roll (formula chance) (length (rolled (world s))) in
    let s := with_world
               (with_rolled (rolled (world s) ++ [(cell, total)]) (world s))
               s in
    if Js.lt total (target chance) then s
    else light cell s.

Definition spreadToNeighbors (fire : Token) (chance : Chance) (s : State)
    : State :=
  let location := (token_x fire, token_y fire) in
  let cell := getGridPos location in
  let neighbors := getNeighbors cell in
  fold_left (fun s cell => spreadToCell cell chance s) neighbors s.

(** Modelled from the spec: the host's [canvas.tokens.createMany], which
    is not part of the sources, persists each record as a new placed token
    with its own data object, or fails and raises. *)
Definition place (W : World) (data : ref) : World :=
  let d := store W !!! data in
  let (h, own) := duplicate (store W) data in
  with_tokens
    (tokens W ++ [{| token_x := data_x d; token_y := data_y d;
                     token_data := own |}])
    (with_store h W).

Definition createMany (o : CommitOutcome) (data : list ref) (W : World)
    : Completion * World :=
  match o with
  | Resolved => (Returned, fold_left place data W)
  | Rejected err => (Raised err, W)
  end.

(** [createNewFires] after its [await]: the notification and the reset
    of [newFires]. *)
Definition createNewFires_resume (s : State) : State :=
  let s := with_world
             (with_notified
                (notified (world s) ++ [length (newFires (this s))])
                (world s)) s in
  with_newFires [] s.

Definition createNewFires (o : CommitOutcome) (s : State)
    : Completion * State :=
  match createMany o (newFires (this s)) (world s) with
  | (Raised err, W) => (Raised err, with_world W s)
  | (Returned, W) => (Returned, createNewFires_resume (with_world W s))
  end.

(** [spread] from the guard up to the call of [createNewFires]. *)
Definition spread_enter (chance : Chance) (s : State) : State :=
  let s := with_spreading true s in
  fold_left (fun s fire => spreadToNeighbors fire chance s) (realFires s) s.

(** [spread] after its [await]. *)
Definition spread_resume (s : State) : State :=
  with_spreading false s.

(** [spread(chance)] run to the settling of its promise; an omitted
    [chance] is [None] and defaults to [this.chance]. *)
Definition spread (arg : option Chance) (o : CommitOutcome) (s : State)
    : Completion * State :=
  let chance := default (chance (this s)) arg in
  if spreading (this s) then (Returned, s)
  else
    let s := spread_enter chance s in
    match createNewFires o s with
    | (Raised err, s) => (Raised err, s)
    | (Returned, s) => (Returned, spread_resume s)
    end.

End Methods.

Global Arguments write : simpl never.

(** ** Interleavings of the asynchronous [spread]

    [spread] suspends at its [await]; what runs in between is other calls
    of [spread] on the instance and the host (other instances, which share
    the canvas, included).  A suspended activation is
    waiting either for the host's [createMany] (inside [createNewFires]) or,
    once that has resolved, to resume after [await this.createNewFires()]. *)

Inductive Suspended :=
| AwaitCreateMany (data : list ref)
| AwaitCreateNewFires.

Record System := {
  state : State;
  inflight : list Suspended
}.

Inductive Event :=
| CallSpread (arg : option Chance)
| CommitResolved
| CommitRejected (err : string)
| Resume
| Host (W : World).

Section Interleavings.

Variable grid : Grid.t.
Variable Roll : string -> nat -> Z.

Inductive step : System -> Event -> System -> Prop :=
| step_guard arg s l :
    spreading (this s) = true ->
    step {| state := s; inflight := l |} (CallSpread arg)
         {| state := s; inflight := l |}
| step_enter arg s l s' :
    spreading (this s) = false ->
    s' = spread_enter grid Roll (default (chance (this s)) arg) s ->
    step {| state := s; inflight := l |} (CallSpread arg)
         {| state := s';
            inflight := l ++ [AwaitCreateMany (newFires (this s'))] |}
| step_resolved s l1 data l2 :
    step {| state := s; inflight := l1 ++ AwaitCreateMany data :: l2 |}
         CommitResolved
         {| state := createNewFires_resume
                       (with_world (snd (createMany Resolved data (world s))) s);
            inflight := l1 ++ AwaitCreateNewFires :: l2 |}
| step_rejected err s l1 data l2 :
    step {| state := s; inflight := l1 ++ AwaitCreateMany data :: l2 |}
         (CommitRejected err)
         {| state := s; inflight := l1 ++ l2 |}
| step_resume s l1 l2 :
    step {| state := s; inflight := l1 ++ AwaitCreateNewFires :: l2 |}
         Resume
         {| state := spread_resume s; inflight := l1 ++ l2 |}
| step_host W s l :
    step {| state := s; inflight := l |} (Host W)
         {| state := with_world W s; inflight := l |}.

(** The systems reachable from a newly constructed instance. *)
Inductive reachable : System -> Prop :=
| reachable_new prototype arg W :
    reachable {| state := constructor prototype arg W; inflight := [] |}
| reachable_step sys e sys' :
    reachable sys -> step sys e sys' -> reachable sys'.

End Interleavings.

(** ** Observations used in the statements *)

Section Observations.

Variable grid : Grid.t.
Variable Roll : string -> nat -> Z.

(** The contents of the instance's private template object. *)
Definition template (s : State) : TokenData :=
  store (world s) !!! _token (this s).

(** The anchors of the burning tokens and of the pending new fires. *)
Definition burning (s : State) : list Point :=
  map (fun t => (token_x t, token_y t)) (realFires s).

Definition anchor (h : Store) (data : ref) : Point :=
  (data_x (h !!! data), data_y (h !!! data)).

Definition pending (s : State) : list Point :=
  map (anchor (store (world s))) (newFires (this s)).

(** The cells proposed in one step, in the order [spread] visits them:
    for each burning token, the neighbours of its cell. *)
Definition visits (s : State) : list Cell :=
  flat_map
    (fun fire => getNeighbors grid (getGridPos grid (token_x fire, token_y fire)))
    (realFires s).

(** [spreadToCell] along a sequence of cells. *)
Definition run (chance : Chance) (cells : list Cell) (s : State) : State :=
  fold_left (fun s cell => spreadToCell grid Roll cell chance s) cells s.

(** The totals rolled for [cell], oldest first. *)
Definition rolls_for (cell : Cell) (log : list (Cell * Z)) : list Z :=
  map snd (List.filter (fun e => bool_decide (fst e = cell)) log).

(** The rolls made between [s] and a later [s']. *)
Definition rolled_since (s s' : State) : list (Cell * Z) :=
  drop (length (rolled (world s))) (rolled (world s')).

(** No dangling references: every reference held by a placed token or
    by the instance denotes an object of the store. *)
Definition wf (s : State) : Prop :=
  Forall (fun t => (token_data t < length (store (world s)))%nat)
         (tokens (world s)) /\
  Forall (fun r => (r < length (store (world s)))%nat) (newFires (this s)) /\
  (_token (this s) < length (store (world s)))%nat.

(** What one step of evaluation leaves alone: the canvas, the notified
    counts, the instance's template reference, chance and guard, every
    object already in the store and every roll already made (the store and
    the history of rolls only grow). *)
Record frame (s s' : State) : Prop := {
  frame_tokens : tokens (world s') = tokens (world s);
  frame_drawings : drawings (world s') = drawings (world s);
  frame_notified : notified (world s') = notified (world s);
  frame_token : _token (this s') = _token (this s);
  frame_chance : chance (this s') = chance (this s);
  frame_spreading : spreading (this s') = spreading (this s);
  frame_store : exists k, store (world s') = store (world s) ++ k;
  frame_rolled : exists r, rolled (world s') = rolled (world s) ++ r
}.

(** A write by someone else through the reference [r]. *)
Definition mutate (r : ref) (f : TokenData -> TokenData) (s : State) : State :=
  with_world (with_store (write f r (store (world s))) (world s)) s.

(** The record that [light] appends to [newFires]. *)
Definition ignition (cell : Cell) (s : State) : TokenData :=
  let s' := light grid cell s in
  store (world s') !!! List.last (newFires (this s')) 0%nat.

End Observations.

(** Rectangles, for the containment test: the four condition test on two
    generic rectangles, following the wording of the specification. *)
Record Rect := {
  left : Z;
  top : Z;
  right : Z;
  bottom : Z
}.

(** [a] lies entirely to the left of [b]; a shared border line counts. *)
Definition left_of (a b : Rect) : Prop := right a <= left b.

(** [a] lies entirely above [b]; a shared border line counts. *)
Definition above (a b : Rect) : Prop := bottom a <= top b.

Definition intersects (a b : Rect) : Prop :=
  ~ (left_of a b \/ left_of b a \/ above a b \/ above b a).

Definition area_rect (area : Drawing) : Rect :=
  {| left := drawing_x area; top := drawing_y area;
     right := drawing_x area + drawing_width area;
     bottom := drawing_y area + drawing_height area |}.

Definition cell_rect (grid : Grid.t) (cell : Cell) : Rect :=
  let '(x, y) := getPixelPos grid cell in
  {| left := x; top := y;
     right := x + gridSize grid; bottom := y + gridSize grid |}.

(** The expression returned by [areaContains], as a function of the two
    rectangles whose corners it compares. *)
Definition overlaps (a b : Rect) : bool :=
  negb ((left a >=? right b) ||
        (left b >=? right a) ||
        (top a >=? bottom b) ||
        (top b >=? bottom a)).

(** ** Concrete scenes

    A square grid of cell size 50 and a flammable drawing covering the
    pixels from (0, 0) to (150, 150). *)

Module Scene.

Definition grid : Grid.t := squareGrid 50.

Definition fire_data (x y : Z) : TokenData :=
  {| data_x := x; data_y := y; data_name := "Fire"; data_img := "fire.png";
     data_fire := true |}.

Definition field : Drawing :=
  {| drawing_x := 0; drawing_y := 0; drawing_width := 150;
     drawing_height := 150; drawing_flammable := true |}.

Definition scene (fs : list (Z * Z)) : World :=
  {| store := map (fun p => fire_data (fst p) (snd p)) fs;
     tokens := imap (fun i p => {| token_x := fst p; token_y := snd p;
                                   token_data := i |}) fs;
     drawings := [field]; rolled := []; notified := [] |}.

Definition source : Token :=
  {| token_x := 0; token_y := 0; token_data := 0%nat |}.

(** One burning token, in cell [0, 0]. *)
Definition one_fire : World := scene [(0, 0)].

(** Two burning tokens, in cells [0, 0] and [0, 2]; the cell [0, 1]
    between them is a neighbour of both. *)
Definition two_fires : World := scene [(0, 0); (100, 0)].

(** A burning token placed off the grid at pixel (10, 10), inside cell
    [0, 0], and a burning token in cell [0, 1]. *)
Definition off_grid : World := scene [(10, 10); (50, 0)].

(** A randomizer on which every roll totals [n]. *)
Definition always (n : Z) : string -> nat -> Z := fun _ _ => n.

(** A randomizer on which every die shows its lowest face: ["1d4-10"]
    totals -9, and the plain dice used here total 1. *)
Definition lowest_face : string -> nat -> Z :=
  fun f _ => if String.eqb f "1d4-10" then -9 else 1.

Definition d6 (n : Z) : Chance := {| formula := "1d6"; target := Js.Num n |}.

End Scene.

(** ** The entry points: the registry, the buttons and the combat hook *)

(** A combatant of the active combat: the module's flag
    [flags.wildfire.fire], and the image and name shown in the tracker. *)
Record Combatant := {
  combatant_fire : bool;
  combatant_img : string;
  combatant_name : string
}.

(** An element of [game.wildfires]: the instance, and the combatant that
    [createWildfire] stores in its [combatant] field. *)
Record Registered := {
  registered_fire : Wildfire;
  registered_combatant : Combatant
}.

(** What [ui.notifications] is asked to show: the localization key, and
    the count [n] where the message is formatted with one. *)
Inductive Message :=
| Warn (key : string)
| Notify (key : string)
| NotifyCount (key : string) (n : nat).

(** The session: the canvas and store, [game.wildfires] (absent until the
    first instance is registered), the combatants of [game.combats.active]
    (absent when no combat is active) and the messages shown. *)
Record Game := {
  canvas : World;
  wildfires : option (list Registered);
  combatants : option (list Combatant);
  messages : list Message
}.

Definition with_canvas (W : World) (g : Game) : Game :=
  {| canvas := W; wildfires := wildfires g; combatants := combatants g;
     messages := messages g |}.

Definition with_wildfires (fs : option (list Registered)) (g : Game) : Game :=
  {| canvas := canvas g; wildfires := fs; combatants := combatants g;
     messages := messages g |}.

Definition with_combatants (cs : option (list Combatant)) (g : Game) : Game :=
  {| canvas := canvas g; wildfires := wildfires g; combatants := cs;
     messages := messages g |}.

Definition show (m : Message) (g : Game) : Game :=
  {| canvas := canvas g; wildfires := wildfires g; combatants := combatants g;
     messages := messages g ++ [m] |}.

Definition with_drawings (ds : list Drawing) (W : World) : World :=
  {| store := store W; tokens := tokens W; drawings := ds;
     rolled := rolled W; notified := notified W |}.

Definition set_fire (b : bool) (d : TokenData) : TokenData :=
  {| data_x := data_x d; data_y := data_y d; data_name := data_name d;
     data_img := data_img d; data_fire := b |}.

(** Modelled from the spec: the host's [source.setFlag("wildfire", "fire",
    true)], which is not part of the sources, marks the entity: it writes
    the flag into the data of the token. *)
Definition setFlag_fire (source : Token) (W : World) : World :=
  with_store (write (set_fire true) (token_data source) (store W)) W.

(** [Wildfire.createWildfire(source, formula, target)]; [flagged] is how
    the awaited [setFlag] settles.  Without an active combat the call of
    [createCombatant] on [game.combats.active] raises a TypeError. *)
Definition createWildfire (flagged : CommitOutcome) (source : Token)
    (formula : string) (target : Js.value) (g : Game) : Completion * Game :=
  match flagged with
  | Rejected err => (Raised err, g)
  | Resolved =>
      let W := setFlag_fire source (canvas g) in
      let s := constructor source
                 (Some {| formula := formula; target := target |}) W in
      let fire := this s in
      let g := with_canvas (world s) g in
      match combatants g with
      | None => (Raised "TypeError", g)
      | Some cs =>
          let combatant :=
            {| combatant_fire := true;
               combatant_img :=
                 data_img (store (canvas g) !!! token_data source);
               combatant_name :=
                 data_name (store (canvas g) !!! token_data source) |} in
          let g := with_combatants (Some (cs ++ [combatant])) g in
          let g := match wildfires g with
                   | None => with_wildfires (Some []) g
                   | Some _ => g
                   end in
          let g := with_wildfires
                     (Some (default [] (wildfires g)
                              ++ [{| registered_fire := fire;
                                     registered_combatant := combatant |}]))
                     g in
          (Returned, g)
      end
  end.

(** [Wildfire.onCreateButtonClick()], with the tokens of
    [canvas.tokens.controlled]; the call of [createWildfire] is not awaited,
    so however it settles the click itself returns. *)
Definition onCreateButtonClick (flagged : CommitOutcome)
    (controlled : list Token) (g : Game) : Game :=
  match controlled with
  | [] => show (Warn "wildfire.notifications.noSelectedToken") g
  | first :: _ =>
      let g := show (Notify "wildfire.notifications.addedWildfire") g in
      snd (createWildfire flagged first "1d6" (Js.Num 1) g)
  end.

(** An update record for a drawing: its [_id] and the value for
    [flags.wildfire.flammable]. *)
Record DrawingUpdate := {
  update_id : nat;
  update_flammable : bool
}.

Definition set_flammable (b : bool) (d : Drawing) : Drawing :=
  {| drawing_x := drawing_x d; drawing_y := drawing_y d;
     drawing_width := drawing_width d; drawing_height := drawing_height d;
     drawing_flammable := b |}.

(** Modelled from the spec: the host's [canvas.drawings.updateMany], which
    is not part of the sources, merges each update record into the drawing
    with that id, or fails and raises.  The id of a drawing is its position
    in [canvas.drawings]. *)
Definition updateMany (o : CommitOutcome) (data : list DrawingUpdate)
    (W : World) : Completion * World :=
  match o with
  | Resolved =>
      (Returned,
       with_drawings
         (fold_left
            (fun ds u => alter (set_flammable (update_flammable u))
                               (update_id u) ds)
            data (drawings W))
         W)
  | Rejected err => (Raised err, W)
  end.

(** [Wildfire.setFlammableDrawings()], with the ids of the drawings of
    [canvas.drawings.controlled]. *)
Definition setFlammableDrawings (o : CommitOutcome) (controlled : list nat)
    (g : Game) : Completion * Game :=
  match controlled with
  | [] => (Returned, show (Warn "wildfire.notifications.noSelectedDrawings") g)
  | _ =>
      let data := map (fun id => {| update_id := id;
                                    update_flammable := true |}) controlled in
      let g := show (NotifyCount "wildfire.notifications.setDrawingsFlammable"
                                 (length data)) g in
      match updateMany o data (canvas g) with
      | (Raised err, W) => (Raised err, with_canvas W g)
      | (Returned, W) => (Returned, with_canvas W g)
      end
  end.

Section Hook.

Variable grid : Grid.t.
Variable Roll : string -> nat -> Z.





End Hook.



(** Concrete sessions over the scenes. *)
Module Stage.

Definition plain_data (x y : Z) : TokenData :=
  {| data_x := x; data_y := y; data_name := "Ooze"; data_img := "ooze.png";
     data_fire := false |}.

(** A canvas with one token that is not yet a fire, in cell [0, 0], and the
    flammable field. *)
Definition fresh : World :=
  {| store := [plain_data 0 0];
     tokens := [Scene.source];
     drawings := [Scene.field]; rolled := []; notified := [] |}.

Definition in_combat (W : World) : Game :=
  {| canvas := W; wildfires := None; combatants := Some []; messages := [] |}.

Definition no_combat (W : World) : Game :=
  {| canvas := W; wildfires := None; combatants := None; messages := [] |}.

(** Two drawings, neither flagged: a field over the pixels from (0, 0) to
    (100, 100) and one far away. *)
Definition sketches : World :=
  {| store := [plain_data 0 0];
     tokens := [Scene.source];
     drawings :=
       [{| drawing_x := 0; drawing_y := 0; drawing_width := 100;
           drawing_height := 100; drawing_flammable := false |};
        {| drawing_x := 1000; drawing_y := 1000; drawing_width := 50;
           drawing_height := 50; drawing_flammable := false |}];
     rolled := []; notified := [] |}.





(** The end to end scene after the evaluation of a step, when the step
    waits for its commit. *)
Definition entered : State :=
  spread_enter Scene.grid (Scene.always 1) default_chance
    (constructor Scene.source None Scene.one_fire).

(** The system with that one activation suspended at its commit. *)
Definition waiting : System :=
  {| state := entered;
     inflight := [AwaitCreateMany (newFires (this entered))] |}.

(** The same system once the host has resolved the commit. *)
Definition committed : System :=
  {| state := createNewFires_resume
                (with_world
                   (snd (createMany Resolved (newFires (this entered))
                           (world entered)))
                   entered);
     inflight := [AwaitCreateNewFires] |}.

End Stage.

(** Deciding well-formedness and membership on concrete scenes. *)
Ltac concrete_wf :=
  unfold wf; cbn; repeat split; repeat constructor.

Ltac concrete_elem := apply (bool_decide_unpack _); vm_compute; exact I.

(** * Properties *)

(** ** The store *)

Section StoreFacts.

Implicit Types (h : Store) (r : ref) (d : TokenData).

Lemma duplicate_store h r : fst (duplicate h r) = h ++ [h !!! r].
Proof. reflexivity. Qed.

Lemma duplicate_fresh h r : snd (duplicate h r) = length h.
Proof. reflexivity. Qed.

Lemma lookup_grown h k r : (r < length h)%nat -> (h ++ k) !!! r = h !!! r.
Proof. intros Hr. by rewrite lookup_total_app_l. Qed.

Lemma lookup_new h d k : (h ++ d :: k) !!! length h = d.
Proof. by rewrite list_lookup_total_middle. Qed.

Lemma write_new h d f : write f (length h) (h ++ [d]) = h ++ [f d].
Proof.
  unfold write. rewrite lookup_new, insert_app_r_alt by lia.
  by rewrite Nat.sub_diag.
Qed.

Lemma write_other h r r' f :
  r <> r' -> write f r h !!! r' = h !!! r'.
Proof. intros Hne. unfold write. by rewrite list_lookup_total_insert_ne. Qed.

Lemma write_length h r f : length (write f r h) = length h.
Proof. unfold write. by rewrite length_insert. Qed.

End StoreFacts.


(** ** Frames and observations *)

Section FrameFacts.

Variable grid : Grid.t.

Lemma frame_refl s : frame s s.
Proof. split; try done; exists []; by rewrite app_nil_r. Qed.

Lemma frame_trans s1 s2 s3 : frame s1 s2 -> frame s2 s3 -> frame s1 s3.
Proof.
  intros [Ht Hd Hn Hk Hc Hs [k Hh] [r Hr]]
         [Ht' Hd' Hn' Hk' Hc' Hs' [k' Hh'] [r' Hr']].
  split; try congruence.
  - exists (k ++ k'). by rewrite Hh', Hh, app_assoc.
  - exists (r ++ r'). by rewrite Hr', Hr, app_assoc.
Qed.

Lemma realFires_frame s s' : wf s -> frame s s' -> realFires s' = realFires s.
Proof.
  intros (Hts & _) [Ht _ _ _ _ _ [k Hh] _].
  unfold realFires. rewrite Ht, Hh. clear Ht.
  induction Hts as [|t ts Hlt _ IH]; [done|]. cbn.
  rewrite lookup_grown by done. by rewrite IH.
Qed.

Lemma burning_frame s s' : wf s -> frame s s' -> burning s' = burning s.
Proof. intros. unfold burning. by erewrite realFires_frame. Qed.


Lemma template_frame s s' : wf s -> frame s s' -> template s' = template s.
Proof.
  intros (_ & _ & Hlt) [_ _ _ Hk _ _ [k Hh] _].
  unfold template. by rewrite Hk, Hh, lookup_grown.
Qed.

Lemma template_frame_token s s' :
  (_token (this s) < length (store (world s)))%nat -> frame s s' ->
  template s' = template s.
Proof.
  intros Hlt [_ _ _ Hk _ _ [k Hh] _].
  unfold template. by rewrite Hk, Hh, lookup_grown.
Qed.

Lemma anchors_grown (h k : Store) (refs : list ref) :
  Forall (fun r => (r < length h)%nat) refs ->
  map (anchor (h ++ k)) refs = map (anchor h) refs.
Proof.
  induction 1 as [|r refs Hlt _ IH]; [done|]. cbn.
  rewrite IH. unfold anchor. by rewrite lookup_grown by done.
Qed.


Lemma flammableAreas_frame s s' : frame s s' -> flammableAreas s' = flammableAreas s.
Proof. intros [_ Hd _ _ _ _ _ _]. unfold flammableAreas. by rewrite Hd. Qed.

Lemma isInFlammableArea_frame s s' cell :
  frame s s' -> isInFlammableArea grid s' cell = isInFlammableArea grid s cell.
Proof. intros. unfold isInFlammableArea. by erewrite flammableAreas_frame. Qed.

Lemma wf_frame s s' :
  wf s -> frame s s' ->
  Forall (fun r => (r < length (store (world s')))%nat) (newFires (this s')) ->
  wf s'.
Proof.
  intros (Hts & _ & Hlt) [Ht _ _ Hk _ _ [k Hh] _] Hnf.
  repeat split; [|done|].
  - rewrite Ht, Hh, length_app.
    clear Ht. induction Hts; constructor; [lia|done].
  - rewrite Hk, Hh, length_app. lia.
Qed.

(** [isBurning] is membership of the cell's pixel position among the
    anchors of the burning tokens and of the pending new fires. *)
Lemma existsb_anchor {A} (fx fy : A -> Z) (x y : Z) (l : list A) :
  existsb (fun t => (fx t =? x) && (fy t =? y)) l = true <->
  (x, y) ∈ map (fun t => (fx t, fy t)) l.
Proof.
  induction l as [|a l IH]; cbn.
  - rewrite elem_of_nil. split; [discriminate|tauto].
  - rewrite orb_true_iff, andb_true_iff, elem_of_cons, IH, !Z.eqb_eq.
    split; (intros [H|H]; [left|by right]).
    + destruct H; congruence.
    + split; congruence.
Qed.

Lemma isBurning_spec s cell :
  isBurning grid s cell = true <->
  getPixelPos grid cell ∈ burning s ++ pending s.
Proof.
  unfold isBurning, fires, burning, pending, anchor.
  destruct (getPixelPos grid cell) as [x y].
  rewrite existsb_anchor, map_app, !map_map. done.
Qed.

Lemma isBurning_false s cell :
  isBurning grid s cell = false <->
  getPixelPos grid cell ∉ burning s ++ pending s.
Proof.
  rewrite <- isBurning_spec. by destruct (isBurning grid s cell).
Qed.

End FrameFacts.

(** ** One ignition *)

Section LightFacts.

Variable grid : Grid.t.
Variable Roll : string -> nat -> Z.

(** [light] allocates two objects, the copy returned by the accessor and
    the copy of that copy, writes the cell's pixel position into the second
    and appends it to [newFires]; nothing else changes. *)
Lemma light_eq cell s :
  light grid cell s =
  {| this := {| _token := _token (this s); chance := chance (this s);
                newFires := newFires (this s) ++ [S (length (store (world s)))];
                spreading := spreading (this s) |};
     world := with_store
                (store (world s) ++
                   [template s;
                    set_y (snd (getPixelPos grid cell))
                          (set_x (fst (getPixelPos grid cell)) (template s))])
                (world s) |}.
Proof.
  unfold light, token_get, duplicate, template.
  destruct (getPixelPos grid cell) as [x y]. cbn [fst snd].
  destruct s as [[tok ch nf sp] [h ts ds rl nt]]. cbn.
  rewrite lookup_new, !write_new.
  unfold with_newFires, with_world, with_store. cbn.
  rewrite <- app_assoc. cbn.
  rewrite length_app. cbn. by rewrite Nat.add_1_r.
Qed.

Lemma lookup_second (h : Store) a b : (h ++ [a; b]) !!! S (length h) = b.
Proof.
  change (h ++ [a; b]) with (h ++ [a] ++ [b]). rewrite app_assoc.
  replace (S (length h)) with (length (h ++ [a])); [apply lookup_new|].
  rewrite length_app. cbn. lia.
Qed.

Lemma light_frame cell s : frame s (light grid cell s).
Proof.
  rewrite light_eq. split; try done; cbn; [eauto|].
  exists []. by rewrite app_nil_r.
Qed.

Lemma light_newFires cell s :
  newFires (this (light grid cell s)) =
  newFires (this s) ++ [S (length (store (world s)))].
Proof. by rewrite light_eq. Qed.

Lemma light_rolled cell s :
  rolled (world (light grid cell s)) = rolled (world s).
Proof. by rewrite light_eq. Qed.

Lemma light_wf cell s : wf s -> wf (light grid cell s).
Proof.
  intros Hwf. apply (wf_frame s); [done|apply light_frame|].
  destruct Hwf as (_ & Hnf & _). rewrite light_eq. cbn.
  rewrite length_app. cbn. apply Forall_app. split.
  - induction Hnf; constructor; [lia|done].
  - constructor; [lia|constructor].
Qed.

Lemma light_pending cell s :
  wf s -> pending (light grid cell s) = pending s ++ [getPixelPos grid cell].
Proof.
  intros (_ & Hnf & _). rewrite light_eq. unfold pending. cbn.
  rewrite map_app, anchors_grown by done. cbn. f_equal.
  unfold anchor. rewrite lookup_second. cbn.
  by destruct (getPixelPos grid cell).
Qed.

(** The state after the roll for [cell] has been made and recorded. *)
Lemma noted_frame cell total s :
  frame s (with_world
             (with_rolled (rolled (world s) ++ [(cell, total)]) (world s)) s).
Proof. split; try done; cbn; [|eauto]. exists []. by rewrite app_nil_r. Qed.

(** What a visit of [cell] does: nothing when the cell is not flammable;
    otherwise exactly one roll, followed by an ignition iff the total is
    not below the target. *)
Lemma spreadToCell_cases cell ch s :
  wf s ->
  let total := Roll (formula ch) (length (rolled (world s))) in
  let s' := spreadToCell grid Roll cell ch s in
  wf s' /\ frame s s' /\
  ((isFlammable grid s cell = false /\ s' = s) \/
   (isFlammable grid s cell = true /\ Js.lt total (target ch) = true /\
    rolled (world s') = rolled (world s) ++ [(cell, total)] /\
    newFires (this s') = newFires (this s) /\
    store (world s') = store (world s) /\
    pending s' = pending s) \/
   (isFlammable grid s cell = true /\ Js.lt total (target ch) = false /\
    rolled (world s') = rolled (world s) ++ [(cell, total)] /\
    newFires (this s') =
      newFires (this s) ++ [S (length (store (world s)))] /\
    pending s' = pending s ++ [getPixelPos grid cell])).
Proof.
  intros Hwf total s'. subst s'. unfold spreadToCell.
  destruct (isFlammable grid s cell) eqn:Hfl; cbn [negb].
  - fold total.
    set (s1 := with_world
                 (with_rolled (rolled (world s) ++ [(cell, total)]) (world s)) s).
    assert (Hf1 : frame s s1) by apply noted_frame.
    assert (Hwf1 : wf s1) by (apply (wf_frame s); [done|done|apply Hwf]).
    destruct (Js.lt total (target ch)) eqn:Hlt.
    + split; [done|]. split; [done|]. right; left. by repeat split.
    + split; [by apply light_wf|].
      split; [eapply frame_trans; [exact Hf1|apply light_frame]|].
      right; right. repeat split.
      * by rewrite light_rolled.
      * by rewrite light_newFires.
      * rewrite light_pending by done. done.
  - split; [done|]. split; [apply frame_refl|]. by left.
Qed.

End LightFacts.

(** ** The evaluation phase of a step *)

Section EvaluationFacts.

Variable grid : Grid.t.
Variable Roll : string -> nat -> Z.

Lemma run_app ch l1 l2 s :
  run grid Roll ch (l1 ++ l2) s = run grid Roll ch l2 (run grid Roll ch l1 s).
Proof. apply fold_left_app. Qed.

Lemma run_snoc ch l cell s :
  run grid Roll ch (l ++ [cell]) s =
  spreadToCell grid Roll cell ch (run grid Roll ch l s).
Proof. by rewrite run_app. Qed.

(** The two nested [forEach] loops of [spread] visit the cells of [visits]
    in order. *)
Lemma neighbors_run ch fs s :
  fold_left (fun s fire => spreadToNeighbors grid Roll fire ch s) fs s =
  run grid Roll ch
    (flat_map
       (fun fire => getNeighbors grid (getGridPos grid (token_x fire, token_y fire)))
       fs) s.
Proof.
  revert s. induction fs as [|fire fs IH]; intros s; [done|].
  cbn [fold_left flat_map]. by rewrite run_app, <- IH.
Qed.

Lemma spread_enter_run ch s :
  spread_enter grid Roll ch s =
  run grid Roll ch (visits grid s) (with_spreading true s).
Proof. unfold spread_enter. by rewrite neighbors_run. Qed.

Lemma with_spreading_wf b s : wf s -> wf (with_spreading b s).
Proof. by intros (? & ? & ?). Qed.

(** Invariant rule for the evaluation phase: a property of the visited
    prefix and the state that holds initially and is kept by every visit
    holds at every point of the evaluation. *)
Lemma run_invariant (P : list Cell -> State -> Prop) ch s :
  wf s -> P [] s ->
  (forall visited s1 cell,
      wf s1 -> frame s s1 -> P visited s1 ->
      P (visited ++ [cell]) (spreadToCell grid Roll cell ch s1)) ->
  forall cells,
    wf (run grid Roll ch cells s) /\ frame s (run grid Roll ch cells s) /\
    P cells (run grid Roll ch cells s).
Proof.
  intros Hwf H0 Hstep cells.
  induction cells as [|cell cells IH] using rev_ind.
  - split; [done|]. split; [apply frame_refl|done].
  - destruct IH as (Hw & Hf & HP). rewrite run_snoc.
    destruct (spreadToCell_cases grid Roll cell ch _ Hw) as (Hw' & Hf' & _).
    split; [done|]. split; [by eapply frame_trans|by apply Hstep].
Qed.

Lemma run_wf ch cells s : wf s -> wf (run grid Roll ch cells s).
Proof.
  intros Hwf.
  by destruct (run_invariant (fun _ _ => True) ch s Hwf I (fun _ _ _ _ _ _ => I) cells).
Qed.

(** The frame of a visit and of the evaluation holds in every state. *)
Lemma spreadToCell_frame cell ch s : frame s (spreadToCell grid Roll cell ch s).
Proof.
  unfold spreadToCell. destruct (negb (isFlammable grid s cell)).
  - apply frame_refl.
  - destruct (Js.lt _ _).
    + apply noted_frame.
    + eapply frame_trans; [apply noted_frame|apply light_frame].
Qed.

Lemma run_frame ch cells s : frame s (run grid Roll ch cells s).
Proof.
  induction cells as [|cell cells IH] using rev_ind; [apply frame_refl|].
  rewrite run_snoc. eapply frame_trans; [exact IH|apply spreadToCell_frame].
Qed.

Lemma spread_enter_spreading ch s :
  spreading (this (spread_enter grid Roll ch s)) = true.
Proof.
  rewrite spread_enter_run.
  by rewrite (frame_spreading _ _ (run_frame ch (visits grid s) _)).
Qed.

(** The rolls made since [s]. *)
Lemma rolled_since_refl s : rolled_since s s = [].
Proof. unfold rolled_since. apply drop_all. Qed.

Lemma rolled_since_snoc s s1 s2 k :
  frame s s1 -> rolled (world s2) = rolled (world s1) ++ k ->
  rolled_since s s2 = rolled_since s s1 ++ k.
Proof.
  intros [_ _ _ _ _ _ _ [r Hr]] H2. unfold rolled_since.
  by rewrite H2, Hr, <- app_assoc, !drop_app_length.
Qed.

Lemma rolls_for_app cell l1 l2 :
  rolls_for cell (l1 ++ l2) = rolls_for cell l1 ++ rolls_for cell l2.
Proof. unfold rolls_for. by rewrite List.filter_app, map_app. Qed.

Lemma rolls_for_here cell total : rolls_for cell [(cell, total)] = [total].
Proof. unfold rolls_for. cbn. by rewrite bool_decide_eq_true_2. Qed.

Lemma rolls_for_other cell cell' total :
  cell' <> cell -> rolls_for cell [(cell', total)] = [].
Proof. intros. unfold rolls_for. cbn. by rewrite bool_decide_eq_false_2. Qed.

(** Flammability of a cell is decided by its pixel position and the
    drawings alone. *)
Lemma isInFlammableArea_pixel s cell cell' :
  getPixelPos grid cell = getPixelPos grid cell' ->
  isInFlammableArea grid s cell = isInFlammableArea grid s cell'.
Proof.
  intros Heq. unfold isInFlammableArea, areaContains. by rewrite Heq.
Qed.

Lemma isFlammable_true s cell :
  isFlammable grid s cell = true <->
  isBurning grid s cell = false /\ isInFlammableArea grid s cell = true.
Proof.
  unfold isFlammable. rewrite andb_true_iff, negb_true_iff. done.
Qed.

(** A visit never extinguishes: what is burning or pending stays so. *)
Lemma spreadToCell_isBurning cell ch s c :
  wf s -> isBurning grid s c = true ->
  isBurning grid (spreadToCell grid Roll cell ch s) c = true.
Proof.
  intros Hwf. rewrite !isBurning_spec.
  destruct (spreadToCell_cases grid Roll cell ch s Hwf) as (_ & Hf & Hc).
  rewrite (burning_frame s _ Hwf Hf).
  destruct Hc as [[_ ->]|[(_ & _ & _ & _ & _ & ->)|(_ & _ & _ & _ & ->)]];
    try done.
  rewrite !elem_of_app. tauto.
Qed.

End EvaluationFacts.

(** ** The containment test *)

Section Containment.

Lemma overlaps_spec a b : overlaps a b = true <-> intersects a b.
Proof.
  unfold overlaps, intersects, left_of, above.
  rewrite negb_true_iff, !orb_false_iff, !Z.geb_leb, !Z.leb_gt. lia.
Qed.

Lemma overlaps_sym a b : overlaps a b = overlaps b a.
Proof.
  unfold overlaps. f_equal.
  destruct (left a >=? right b), (left b >=? right a),
           (top a >=? bottom b), (top b >=? bottom a); reflexivity.
Qed.

Lemma areaContains_overlaps grid area cell :
  areaContains grid area cell = overlaps (area_rect area) (cell_rect grid cell).
Proof.
  unfold areaContains, overlaps, area_rect, cell_rect.
  by destruct (getPixelPos grid cell).
Qed.

(** For rectangles of positive extent the test says that the two
    rectangles, read as sets of pixels, share a pixel. *)
Lemma overlaps_shared_pixel a b :
  left a < right a -> top a < bottom a ->
  left b < right b -> top b < bottom b ->
  overlaps a b = true <->
  exists x y, (left a <= x < right a /\ top a <= y < bottom a) /\
              (left b <= x < right b /\ top b <= y < bottom b).
Proof.
  intros. rewrite overlaps_spec. unfold intersects, left_of, above. split.
  - intros Hn. exists (Z.max (left a) (left b)), (Z.max (top a) (top b)). lia.
  - intros (x & y & ? & ?). lia.
Qed.

(** C6: [areaContains] is the four condition exclusion test on the
    rectangle of the drawing and the square of the cell: it is true exactly
    when neither rectangle lies entirely to the left of or above the other,
    a shared border line counting as separation; the test is symmetric in
    the two rectangles. *)
Theorem areaContains_four_conditions :
  forall grid area cell,
    areaContains grid area cell
    = overlaps (area_rect area) (cell_rect grid cell) /\
    (areaContains grid area cell = true <->
     intersects (area_rect area) (cell_rect grid cell)) /\
    (forall a b : Rect,
        overlaps a b = overlaps b a /\
        (intersects a b <-> intersects b a) /\
        (right a = left b \/ right b = left a \/
         bottom a = top b \/ bottom b = top a -> overlaps a b = false)).
Proof.
  intros grid area cell. split; [apply areaContains_overlaps|]. split.
  - rewrite areaContains_overlaps. apply overlaps_spec.
  - intros a b. split; [apply overlaps_sym|]. split.
    + rewrite <- !overlaps_spec. by rewrite overlaps_sym.
    + intros Htouch. apply not_true_is_false. rewrite overlaps_spec.
      unfold intersects, left_of, above. lia.
Qed.

End Containment.

(** ** Burning is equality of anchors *)

Section Burning.

Lemma isBurning_exists grid s cell :
  isBurning grid s cell = true <->
  exists t, t ∈ fires s /\
            fire_x s t = fst (getPixelPos grid cell) /\
            fire_y s t = snd (getPixelPos grid cell).
Proof.
  unfold isBurning. destruct (getPixelPos grid cell) as [x y]. cbn [fst snd].
  rewrite existsb_exists. split.
  - intros (t & Hin & Ht). exists t. rewrite list_elem_of_In.
    apply andb_true_iff in Ht as [Hx Hy]. apply Z.eqb_eq in Hx, Hy. done.
  - intros (t & Hin & Hx & Hy). exists t. rewrite <- list_elem_of_In.
    split; [done|]. by rewrite Hx, Hy, !Z.eqb_refl.
Qed.

(** What [fires] holds: the placed tokens whose data carries the fire
    flag, and the records of [newFires]. *)
Lemma fires_elem s t :
  t ∈ fires s <->
  (exists tk, t = RealFire tk /\ tk ∈ tokens (world s) /\
              data_fire (store (world s) !!! token_data tk) = true) \/
  (exists data, t = NewFire data /\ data ∈ newFires (this s)).
Proof.
  unfold fires, realFires.
  rewrite elem_of_app, !list_elem_of_In, !in_map_iff. split.
  - intros [(tk & <- & Hin)|(d & <- & Hin)].
    + left. exists tk. apply filter_In in Hin as [Hin Hf].
      by rewrite list_elem_of_In.
    + right. exists d. by rewrite list_elem_of_In.
  - intros [(tk & -> & Hin & Hf)|(d & -> & Hin)].
    + left. exists tk. split; [done|]. apply filter_In.
      by rewrite <- list_elem_of_In.
    + right. exists d. by rewrite <- list_elem_of_In.
Qed.

(** [isBurning] on the canvas and the instance: a placed token flagged as
    fire, or a pending record, sits exactly on the cell's corner. *)
Lemma isBurning_tokens grid s cell :
  isBurning grid s cell = true <->
  (exists tk, tk ∈ tokens (world s) /\
              data_fire (store (world s) !!! token_data tk) = true /\
              (token_x tk, token_y tk) = getPixelPos grid cell) \/
  (exists data, data ∈ newFires (this s) /\
                (data_x (store (world s) !!! data),
                 data_y (store (world s) !!! data)) = getPixelPos grid cell).
Proof.
  rewrite isBurning_exists. split.
  - intros (t & Hin & Hx & Hy).
    apply fires_elem in Hin as [(tk & -> & Hin & Hf)|(d & -> & Hin)];
      cbn [fire_x fire_y] in Hx, Hy; [left; exists tk|right; exists d];
      destruct (getPixelPos grid cell); cbn [fst snd] in *; subst; done.
  - intros [(tk & Hin & Hf & Heq)|(d & Hin & Heq)];
      [exists (RealFire tk)|exists (NewFire d)];
      rewrite fires_elem, <- Heq; cbn [fire_x fire_y fst snd]; eauto 10.
Qed.

End Burning.

Section BurningAnchor.

(** C10: [isBurning] tests equality of anchors, not containment.  It is
    true iff some fire has exactly the pixel position of the cell's top left
    corner, where the fires are the placed tokens whose data carries the fire
    flag and the pending records of [newFires], and nothing else.  When no
    such token and no pending record sits exactly on the corner the cell
    does not count as burning, wherever else in the cell's square a burning
    token may be anchored, and a visit whose roll reaches the target ignites
    the cell.  On the scene with a burning token at pixel (10, 10), strictly
    inside cell [0, 0], the step ignites that cell again. *)
Theorem isBurning_exact_anchor :
  (forall grid s cell,
      isBurning grid s cell = true <->
      exists t, t ∈ fires s /\
                fire_x s t = fst (getPixelPos grid cell) /\
                fire_y s t = snd (getPixelPos grid cell)) /\
  (forall s t,
      t ∈ fires s <->
      (exists tk, t = RealFire tk /\ tk ∈ tokens (world s) /\
                  data_fire (store (world s) !!! token_data tk) = true) \/
      (exists data, t = NewFire data /\ data ∈ newFires (this s))) /\
  (forall grid s cell,
      isBurning grid s cell = true <->
      (exists tk, tk ∈ tokens (world s) /\
                  data_fire (store (world s) !!! token_data tk) = true /\
                  (token_x tk, token_y tk) = getPixelPos grid cell) \/
      (exists data, data ∈ newFires (this s) /\
                    (data_x (store (world s) !!! data),
                     data_y (store (world s) !!! data))
                    = getPixelPos grid cell)) /\
  (forall grid Roll s ch cell,
      wf s ->
      (forall tk, tk ∈ tokens (world s) ->
                  data_fire (store (world s) !!! token_data tk) = true ->
                  (token_x tk, token_y tk) <> getPixelPos grid cell) ->
      (forall data, data ∈ newFires (this s) ->
                    (data_x (store (world s) !!! data),
                     data_y (store (world s) !!! data))
                    <> getPixelPos grid cell) ->
      isBurning grid s cell = false /\
      (isInFlammableArea grid s cell = true ->
       Js.lt (Roll (formula ch) (length (rolled (world s)))) (target ch)
       = false ->
       pending (spreadToCell grid Roll cell ch s)
       = pending s ++ [getPixelPos grid cell])) /\
  (exists grid Roll s ch cell t,
      wf s /\ t ∈ realFires s /\
      t ∈ tokens (world s) /\
      data_fire (store (world s) !!! token_data t) = true /\
      fst (getPixelPos grid cell) < token_x t
        < fst (getPixelPos grid cell) + gridSize grid /\
      snd (getPixelPos grid cell) < token_y t
        < snd (getPixelPos grid cell) + gridSize grid /\
      getGridPos grid (token_x t, token_y t) = cell /\
      isBurning grid s cell = false /\
      getPixelPos grid cell ∈ pending (spread_enter grid Roll ch s)).
Proof.
  split; [apply isBurning_exists|]. split; [apply fires_elem|].
  split; [apply isBurning_tokens|]. split.
  - intros grid Roll s ch cell Hwf Htk Hnew.
    assert (Hb : isBurning grid s cell = false).
    { apply not_true_is_false. rewrite isBurning_tokens.
      intros [(tk & Hin & Hf & Heq)|(d & Hin & Heq)].
      - by apply (Htk tk).
      - by apply (Hnew d). }
    split; [done|]. intros Harea Hlt.
    destruct (spreadToCell_cases grid Roll cell ch s Hwf) as (_ & _ & Hc).
    unfold isFlammable in Hc. rewrite Hb, Harea in Hc. cbn in Hc.
    destruct Hc as [[? _]|[(_ & Hlt' & _)|(_ & _ & _ & _ & Hp)]];
      [done|congruence|done].
  - exists Scene.grid, (Scene.always 1),
      (constructor Scene.source None Scene.off_grid), default_chance, (0, 0),
      {| token_x := 10; token_y := 10; token_data := 0%nat |}.
    split; [concrete_wf|]. split; [concrete_elem|].
    split; [concrete_elem|]. split; [reflexivity|].
    split; [by vm_compute|]. split; [by vm_compute|].
    split; [reflexivity|]. split; [reflexivity|]. concrete_elem.
Qed.

End BurningAnchor.

(** ** Gating by flammable areas, and no double ignition *)

Section Gating.

Variable grid : Grid.t.
Variable Roll : string -> nat -> Z.

Lemma spreadToCell_not_flammable cell ch s :
  isFlammable grid s cell = false -> spreadToCell grid Roll cell ch s = s.
Proof. intros H. unfold spreadToCell. by rewrite H. Qed.

(** C3: a cell that intersects no flammable area is never ignited, whatever
    the chance and the rolls: a visit of it changes nothing, and in a whole
    step no roll is made for it and its position is not added to the
    pending new fires. *)
Theorem unflammable_never_ignites cell ch s :
  wf s ->
  isInFlammableArea grid s cell = false ->
  spreadToCell grid Roll cell ch s = s /\
  let s' := spread_enter grid Roll ch s in
  rolls_for cell (rolled_since s s') = [] /\
  (getPixelPos grid cell ∈ pending s' -> getPixelPos grid cell ∈ pending s).
Proof.
  intros Hwf Hout. split.
  { apply spreadToCell_not_flammable. unfold isFlammable.
    by rewrite Hout, andb_false_r. }
  cbn zeta. rewrite spread_enter_run.
  set (s0 := with_spreading true s).
  change (rolled_since s) with (rolled_since s0).
  change (pending s) with (pending s0).
  assert (Hwf0 : wf s0) by by apply with_spreading_wf.
  refine (proj2 (proj2 (run_invariant grid Roll
    (fun _ s1 => rolls_for cell (rolled_since s0 s1) = [] /\
                 (getPixelPos grid cell ∈ pending s1 ->
                  getPixelPos grid cell ∈ pending s0))
    ch s0 Hwf0 _ _ (visits grid s)))).
  { by rewrite rolled_since_refl. }
  intros _ s1 cell' Hwf1 Hf1 [Hrolls Hpend].
  destruct (spreadToCell_cases grid Roll cell' ch s1 Hwf1) as (_ & _ & Hc).
  assert (Hne : isFlammable grid s1 cell' = true ->
                getPixelPos grid cell' <> getPixelPos grid cell).
  { intros Hfl Heq. apply isFlammable_true in Hfl as [_ Hin].
    rewrite (isInFlammableArea_frame grid s0 s1) in Hin by done.
    rewrite (isInFlammableArea_pixel grid s0 _ _ Heq) in Hin.
    change (isInFlammableArea grid s0 cell) with (isInFlammableArea grid s cell) in Hin.
    congruence. }
  destruct Hc as [[_ ->]|[(Hfl & _ & Hr & _ & _ & Hp)|(Hfl & _ & Hr & _ & Hp)]].
  - done.
  - rewrite (rolled_since_snoc s0 s1 _ _ Hf1 Hr), rolls_for_app, Hrolls, Hp.
    split; [|done]. apply rolls_for_other. intros ->. by apply Hne.
  - rewrite (rolled_since_snoc s0 s1 _ _ Hf1 Hr), rolls_for_app, Hrolls, Hp.
    split; [apply rolls_for_other; intros ->; by apply Hne|].
    rewrite elem_of_app, list_elem_of_singleton. intros [?|Heq]; [auto|].
    by destruct (Hne Hfl).
Qed.

(** The invariant of the pending new fires: no anchor twice, and none that
    is the anchor of a burning token. *)
Lemma spreadToCell_tidy cell ch s :
  wf s ->
  NoDup (pending s) /\ (forall p, p ∈ pending s -> p ∉ burning s) ->
  let s' := spreadToCell grid Roll cell ch s in
  NoDup (pending s') /\ (forall p, p ∈ pending s' -> p ∉ burning s).
Proof.
  intros Hwf [Hnd Hdis].
  destruct (spreadToCell_cases grid Roll cell ch s Hwf) as (_ & _ & Hc).
  cbn zeta.
  destruct Hc as [[_ ->]|[(_ & _ & _ & _ & _ & ->)|(Hfl & _ & _ & _ & ->)]];
    try done.
  apply isFlammable_true in Hfl as [Hnb _].
  apply isBurning_false in Hnb. rewrite elem_of_app in Hnb.
  split.
  - apply list.NoDup_app. split; [done|].
    split; [|apply NoDup_singleton].
    intros p Hp. rewrite list_elem_of_singleton. intros ->. tauto.
  - intros p. rewrite elem_of_app, list_elem_of_singleton.
    intros [Hp| ->]; [by apply Hdis|tauto].
Qed.

Lemma createNewFires_resolved s :
  fst (createNewFires Resolved s) = Returned /\
  newFires (this (snd (createNewFires Resolved s))) = [].
Proof. done. Qed.

Lemma spreadToCell_burning cell ch s :
  isBurning grid s cell = true -> spreadToCell grid Roll cell ch s = s.
Proof.
  intros H. apply spreadToCell_not_flammable. unfold isFlammable. by rewrite H.
Qed.

(** X18: no double ignition, as far as the code keeps it: at every point
    of a step the pending new fires, each identified as [isBurning] does by
    the pixel position of its cell, are pairwise distinct and none is the
    position of a token that was burning when the step began; when every
    burning token sits at the top left corner of its cell, none is the cell
    of such a token; a visit of a cell that [isBurning] reports as burning
    or pending adds nothing; and a successful commit empties [newFires]. *)
Theorem no_double_ignition arg s :
  wf s ->
  spreading (this s) = false ->
  NoDup (pending s) ->
  (forall p, p ∈ pending s -> p ∉ burning s) ->
  let ch := default (chance (this s)) arg in
  (forall visited rest,
      visits grid s = visited ++ rest ->
      let s' := run grid Roll ch visited (with_spreading true s) in
      NoDup (pending s') /\
      (forall p, p ∈ pending s' -> p ∉ burning s) /\
      ((forall t, t ∈ realFires s ->
          getPixelPos grid (getGridPos grid (token_x t, token_y t))
          = (token_x t, token_y t)) ->
       forall p t, p ∈ pending s' -> t ∈ realFires s ->
          p <> getPixelPos grid (getGridPos grid (token_x t, token_y t)))) /\
  (forall s1 cell,
      isBurning grid s1 cell = true -> spreadToCell grid Roll cell ch s1 = s1) /\
  (forall s1, newFires (this (snd (createNewFires Resolved s1))) = []) /\
  fst (spread grid Roll arg Resolved s) = Returned /\
  newFires (this (snd (spread grid Roll arg Resolved s))) = [].
Proof.
  intros Hwf Hidle Hnd Hdis ch. split; [|split; [|split]].
  - intros visited _ _.
    set (s0 := with_spreading true s).
    assert (Hwf0 : wf s0) by by apply with_spreading_wf.
    assert (Hinv :
      NoDup (pending (run grid Roll ch visited s0)) /\
      (forall p, p ∈ pending (run grid Roll ch visited s0) -> p ∉ burning s)).
    { refine (proj2 (proj2 (run_invariant grid Roll
        (fun _ s1 => NoDup (pending s1) /\
                     (forall p, p ∈ pending s1 -> p ∉ burning s))
        ch s0 Hwf0 _ _ visited))); [done|].
      intros _ s1 cell Hwf1 Hf1 Hinv.
      assert (Hb : burning s1 = burning s).
      { by rewrite (burning_frame s0 s1). }
      rewrite <- Hb in Hinv |- *. by apply spreadToCell_tidy. }
    destruct Hinv as [Hnd' Hdis']. cbn zeta. split; [done|]. split; [done|].
    intros Haligned p t Hp Ht ->. apply (Hdis' _ Hp).
    rewrite (Haligned t Ht). unfold burning.
    by apply (list_elem_of_fmap_2 (fun t => (token_x t, token_y t))).
  - intros s1 cell. apply spreadToCell_burning.
  - intros s1. apply createNewFires_resolved.
  - unfold spread. rewrite Hidle. done.
Qed.

End Gating.

(** ** Rolls and the threshold *)

Section Threshold.

Variable grid : Grid.t.
Variable Roll : string -> nat -> Z.

(** The conversion of strings on samples: padding, signs, fractions,
    exponents, the other bases, the infinities, rounding to the nearest
    double, and strings that are no numeric literal. *)
Example StringToNumber_samples :
  Js.ToNumber (Js.Str "1") = Some 1 /\
  Js.ToNumber (Js.Str "") = Some 0 /\
  Js.ToNumber (Js.Str " 5") = Some 5 /\
  Js.ToNumber (Js.Str "-12 ") = Some (-12) /\
  Js.ToNumber (Js.Str "1e3") = Some 1000 /\
  Js.ToNumber (Js.Str "0x10") = Some 16 /\
  Js.ToNumber (Js.Str "0b101") = Some 5 /\
  Js.ToNumber (Js.Str "5.") = Some 5 /\
  Js.ToNumber (Js.Str "9007199254740993") = Some 9007199254740992 /\
  Js.StringToNumber "1.5" = Js.Finite 6755399441055744 (-52) /\
  Js.StringToNumber "0.1" = Js.Finite 7205759403792794 (-56) /\
  Js.StringToNumber "5e-324" = Js.Finite 1 (-1074) /\
  Js.StringToNumber "Infinity" = Js.Infinity false /\
  Js.StringToNumber "-Infinity" = Js.Infinity true /\
  Js.StringToNumber "1e400" = Js.Infinity false /\
  Js.StringToNumber "-0x10" = Js.NaN /\
  Js.StringToNumber "1e" = Js.NaN /\
  Js.StringToNumber "." = Js.NaN /\
  Js.StringToNumber "1 2" = Js.NaN /\
  Js.StringToNumber "fire" = Js.NaN.
Proof. by vm_compute. Qed.

(** The comparison on samples: a fraction, an infinity and NaN on the
    right. *)
Example lt_samples :
  Js.lt 1 (Js.Str "1.5") = true /\
  Js.lt 2 (Js.Str "1.5") = false /\
  Js.lt 1000000 (Js.Str "Infinity") = true /\
  Js.lt (-1000000) (Js.Str "-Infinity") = false /\
  Js.lt 0 (Js.Str "fire") = false /\
  Js.lt 9007199254740992 (Js.Str "9007199254740993") = false.
Proof. by vm_compute. Qed.

(** Against a Number that is an integer the comparison is the one of
    integers. *)
Lemma less_integer total x n :
  Js.integer x = Some n -> Js.less total x = (total <? n).
Proof.
  destruct x as [| |m e]; try done. unfold Js.integer, Js.less.
  destruct (0 <=? e) eqn:He.
  - by intros [= <-].
  - apply Z.leb_gt in He.
    destruct (Z.land m (Z.ones (- e)) =? 0) eqn:Hm; [|done].
    intros [= <-]. apply Z.eqb_eq in Hm.
    rewrite Z.land_ones in Hm by lia.
    rewrite Z.shiftl_mul_pow2, Z.shiftr_div_pow2 by lia.
    assert (Hp : 0 < 2 ^ (- e)) by (apply Z.pow_pos_nonneg; lia).
    pose proof (Z.div_mod m (2 ^ (- e))) as Hd.
    destruct (Z.ltb_spec (total * 2 ^ (- e)) m),
             (Z.ltb_spec total (m / 2 ^ (- e))); try done; nia.
Qed.

Lemma lt_Num total n : Js.lt total (Js.Num n) = false <-> n <= total.
Proof. unfold Js.lt. cbn. apply Z.ltb_ge. Qed.

Lemma constructor_wf prototype arg W :
  Forall (fun t => (token_data t < length (store W))%nat) (tokens W) ->
  wf (constructor prototype arg W).
Proof.
  intros Hts. unfold wf, constructor, token_set. cbn.
  rewrite length_app. cbn. split; [|split; [constructor|lia]].
  induction Hts; constructor; [lia|done].
Qed.

(** When no roll can fail, every proposed cell inside a flammable area is
    burning or pending at the end of the evaluation. *)
Lemma certain_spread ch s :
  wf s ->
  (forall k, Js.lt (Roll (formula ch) k) (target ch) = false) ->
  forall cell,
    cell ∈ visits grid s -> isInFlammableArea grid s cell = true ->
    isBurning grid (spread_enter grid Roll ch s) cell = true.
Proof.
  intros Hwf Hsure cell Hin Harea. rewrite spread_enter_run.
  set (s0 := with_spreading true s).
  assert (Hwf0 : wf s0) by by apply with_spreading_wf.
  refine (proj2 (proj2 (run_invariant grid Roll
    (fun visited s1 =>
       forall c, c ∈ visited -> isInFlammableArea grid s c = true ->
                 isBurning grid s1 c = true)
    ch s0 Hwf0 _ _ (visits grid s))) cell Hin Harea).
  { intros c Hc. by apply elem_of_nil in Hc. }
  intros visited s1 cell' Hwf1 Hf1 IH c Hc Hc_area.
  apply elem_of_app in Hc as [Hc|Hc].
  { apply spreadToCell_isBurning; auto. }
  apply list_elem_of_singleton in Hc as ->.
  destruct (spreadToCell_cases grid Roll cell' ch s1 Hwf1) as (_ & Hf & Hc).
  destruct Hc as [[Hfl ->]|[(_ & Hlt & _)|(_ & _ & _ & _ & Hp)]].
  - unfold isFlammable in Hfl.
    rewrite (isInFlammableArea_frame grid s0 s1) in Hfl by done.
    change (isInFlammableArea grid s0 cell') with (isInFlammableArea grid s cell') in Hfl.
    rewrite Hc_area, andb_true_r in Hfl. by apply negb_false_iff in Hfl.
  - by rewrite Hsure in Hlt.
  - apply isBurning_spec. rewrite Hp, !elem_of_app, list_elem_of_singleton. auto.
Qed.

(** When every roll fails, the evaluation ignites nothing. *)
Lemma impossible_spread ch s :
  wf s ->
  (forall k, Js.lt (Roll (formula ch) k) (target ch) = true) ->
  newFires (this (spread_enter grid Roll ch s)) = newFires (this s) /\
  pending (spread_enter grid Roll ch s) = pending s.
Proof.
  intros Hwf Hnever. rewrite spread_enter_run.
  set (s0 := with_spreading true s).
  assert (Hwf0 : wf s0) by by apply with_spreading_wf.
  refine (proj2 (proj2 (run_invariant grid Roll
    (fun _ s1 => newFires (this s1) = newFires (this s) /\
                 pending s1 = pending s)
    ch s0 Hwf0 _ _ (visits grid s)))); [done|].
  intros _ s1 cell Hwf1 Hf1 [IHn IHp].
  destruct (spreadToCell_cases grid Roll cell ch s1 Hwf1) as (_ & _ & Hc).
  destruct Hc as [[_ ->]|[(_ & _ & _ & -> & _ & ->)|(_ & Hlt & _)]]; try done.
  by rewrite Hnever in Hlt.
Qed.

Lemma spread_returns arg s :
  fst (spread grid Roll arg Resolved s) = Returned.
Proof. unfold spread. by destruct (spreading (this s)). Qed.

(** The rolls that one visit makes for a cell. *)
Lemma visit_rolls cell cell' ch s :
  wf s ->
  rolls_for cell (rolled_since s (spreadToCell grid Roll cell' ch s)) =
  if isFlammable grid s cell' && bool_decide (cell' = cell)
  then [Roll (formula ch) (length (rolled (world s)))] else [].
Proof.
  intros Hwf.
  destruct (spreadToCell_cases grid Roll cell' ch s Hwf) as (_ & _ & Hc).
  destruct Hc as [[-> ->]|[(-> & _ & Hr & _)|(-> & _ & Hr & _)]]; cbn [andb].
  - by rewrite rolled_since_refl.
  - rewrite (rolled_since_snoc s s _ _ (frame_refl s) Hr), rolled_since_refl.
    cbn [app]. case_bool_decide as Heq.
    + subst. apply rolls_for_here.
    + by apply rolls_for_other.
  - rewrite (rolled_since_snoc s s _ _ (frame_refl s) Hr), rolled_since_refl.
    cbn [app]. case_bool_decide as Heq.
    + subst. apply rolls_for_here.
    + by apply rolls_for_other.
Qed.

Lemma snoc_split {A} (l1 l2 l : list A) (t t' : A) :
  l1 ++ t :: l2 = l ++ [t'] -> l2 = [] \/ t ∈ l.
Proof.
  destruct l2 as [|x l2] using rev_ind; [by left|]. clear IHl2.
  intros Heq. right.
  change (l1 ++ t :: l2 ++ [x]) with (l1 ++ (t :: l2) ++ [x]) in Heq.
  rewrite app_assoc in Heq. apply app_inj_tail in Heq as [<- _].
  rewrite elem_of_app, elem_of_cons. auto.
Qed.

End Threshold.

(** ** How often a cell is rolled for *)

Section Rolls.

Variable grid : Grid.t.
Variable Roll : string -> nat -> Z.

Lemma rolled_since_trans s0 s1 s2 :
  frame s0 s1 -> frame s1 s2 ->
  rolled_since s0 s2 = rolled_since s0 s1 ++ rolled_since s1 s2.
Proof.
  intros [_ _ _ _ _ _ _ [r1 H1]] [_ _ _ _ _ _ _ [r2 H2]]. unfold rolled_since.
  by rewrite H2, !drop_app_length, H1, <- app_assoc, !drop_app_length.
Qed.

Lemma proposals_snoc (cell cell' : Cell) visited :
  List.filter (fun c => bool_decide (c = cell)) (visited ++ [cell']) =
  List.filter (fun c => bool_decide (c = cell)) visited ++
  (if bool_decide (cell' = cell) then [cell'] else []).
Proof. by rewrite List.filter_app. Qed.

(** A visit rolls once if the cell is flammable at that moment, and not
    at all otherwise. *)
Lemma visit_rolled cell ch s :
  rolled_since s (spreadToCell grid Roll cell ch s) =
  if isFlammable grid s cell
  then [(cell, Roll (formula ch) (length (rolled (world s))))] else [].
Proof.
  unfold spreadToCell, rolled_since.
  destruct (isFlammable grid s cell); cbn [negb]; [|apply drop_all].
  destruct (Js.lt _ _); [|rewrite light_rolled]; cbn; apply drop_app_length.
Qed.

Lemma lt_ToNumber total v n :
  Js.ToNumber v = Some n -> (Js.lt total v = false <-> n <= total).
Proof.
  intros Hn. unfold Js.lt. rewrite (less_integer _ _ _ Hn). apply Z.ltb_ge.
Qed.

(** The number of rolls for a cell in a step is bounded by the number of
    burning tokens that propose it, and a roll that reaches the target is
    the last one. *)
Lemma rolls_bounded ch cell s :
  wf s ->
  (forall s1,
     rolled_since s1 (spreadToCell grid Roll cell ch s1) =
     if isFlammable grid s1 cell
     then [(cell, Roll (formula ch) (length (rolled (world s1))))] else []) /\
  (length (rolls_for cell (rolled_since s (spread_enter grid Roll ch s)))
   <= length (List.filter (fun c => bool_decide (c = cell)) (visits grid s)))%nat /\
  (forall n l1 t l2,
     Js.ToNumber (target ch) = Some n ->
     rolls_for cell (rolled_since s (spread_enter grid Roll ch s)) = l1 ++ t :: l2 ->
     n <= t -> l2 = []).
Proof.
  intros Hwf. split; [intros s1; apply visit_rolled|].
  rewrite spread_enter_run.
  set (s0 := with_spreading true s).
  change (rolled_since s) with (rolled_since s0).
  assert (Hwf0 : wf s0) by by apply with_spreading_wf.
  pose (fails := fun t => Js.lt t (target ch) = true).
  pose (P := fun (visited : list Cell) s1 =>
    (length (rolls_for cell (rolled_since s0 s1))
     <= length (List.filter (fun c => bool_decide (c = cell)) visited))%nat /\
    (Forall fails (rolls_for cell (rolled_since s0 s1)) \/
     isBurning grid s1 cell = true /\
     exists l t, rolls_for cell (rolled_since s0 s1) = l ++ [t] /\
                 Forall fails l)).
  assert (H0 : P [] s0).
  { unfold P. rewrite rolled_since_refl. cbn. split; [lia|]. left. constructor. }
  assert (Hstep : forall visited s1 cell',
             wf s1 -> frame s0 s1 -> P visited s1 ->
             P (visited ++ [cell']) (spreadToCell grid Roll cell' ch s1)).
  { intros visited s1 cell' Hwf1 Hf1 [Hlen Hlast]. unfold P.
    destruct (spreadToCell_cases grid Roll cell' ch s1 Hwf1) as (_ & Hf2 & Hc).
    rewrite (rolled_since_trans s0 s1 _ Hf1 Hf2), rolls_for_app.
    rewrite visit_rolls by done. rewrite proposals_snoc, !length_app.
    case_bool_decide as Heq; [subst cell'|]; rewrite ?andb_true_r, ?andb_false_r.
    - destruct (isFlammable grid s1 cell) eqn:Hfl.
      + split; [cbn; lia|].
        destruct Hlast as [Hall|[Hb _]];
          [|apply isFlammable_true in Hfl as [Hfl _]; congruence].
        destruct Hc as [[? _]|[(_ & Hlt & _)|(_ & _ & _ & _ & Hp)]];
          [congruence| |].
        * left. apply Forall_app. split; [done|]. by constructor.
        * right. split; [|eauto].
          apply isBurning_spec.
          rewrite Hp, !elem_of_app, list_elem_of_singleton. auto.
      + rewrite app_nil_r. split; [cbn; lia|].
        by rewrite (spreadToCell_not_flammable grid Roll cell ch s1 Hfl).
    - rewrite !app_nil_r. cbn [length]. split; [lia|].
      destruct Hlast as [?|[Hb ?]]; [by left|right].
      split; [by apply spreadToCell_isBurning|done]. }
  destruct (run_invariant grid Roll P ch s0 Hwf0 H0 Hstep (visits grid s))
    as (_ & _ & [Hlen Hlast]).
  split; [exact Hlen|].
  intros n l1 t l2 Hn Heq Hok. apply (lt_ToNumber t _ _ Hn) in Hok.
  destruct Hlast as [Hall|(_ & l & t' & Hl & Hall)].
  - rewrite Heq in Hall. apply Forall_app in Hall as [_ Hall].
    apply Forall_cons_1 in Hall as [Hfail _]. unfold fails in Hfail. congruence.
  - rewrite Heq in Hl. apply snoc_split in Hl as [?|Hin]; [done|].
    rewrite list.Forall_forall in Hall. apply Hall in Hin. unfold fails in Hin.
    congruence.
Qed.

(** A visit leaves a flammable cell flammable unless it ignites a cell at
    the same pixel position. *)
Lemma spreadToCell_keeps_flammable cell cell' ch s :
  wf s ->
  isFlammable grid s cell = true ->
  pending (spreadToCell grid Roll cell' ch s) = pending s \/
  getPixelPos grid cell' <> getPixelPos grid cell ->
  isFlammable grid (spreadToCell grid Roll cell' ch s) cell = true.
Proof.
  intros Hwf Hfl Hother.
  destruct (spreadToCell_cases grid Roll cell' ch s Hwf) as (_ & Hf & Hc).
  apply isFlammable_true in Hfl as [Hb Ha]. apply isFlammable_true.
  rewrite (isInFlammableArea_frame grid s _ cell Hf). split; [|done].
  apply isBurning_false in Hb. apply isBurning_false.
  rewrite (burning_frame s _ Hwf Hf).
  destruct Hc as [[_ ->]|[(_ & _ & _ & _ & _ & ->)|(_ & _ & _ & _ & Hp)]];
    [done|done|].
  destruct Hother as [->|Hne]; [done|].
  rewrite Hp, app_assoc, elem_of_app, list_elem_of_singleton.
  intros [?|?]; [done|]. by apply Hne.
Qed.

(** A roll that fails leaves no trace but the draw: the cell is flammable
    as before. *)
Lemma failed_roll_keeps_flammable cell ch s :
  wf s ->
  isFlammable grid s cell = true ->
  Js.lt (Roll (formula ch) (length (rolled (world s)))) (target ch) = true ->
  isFlammable grid (spreadToCell grid Roll cell ch s) cell = true.
Proof.
  intros Hwf Hfl Hlt.
  destruct (spreadToCell_cases grid Roll cell ch s Hwf) as (_ & _ & Hc).
  destruct Hc as [[? _]|[(_ & _ & _ & _ & _ & Hp)|(_ & ? & _)]];
    [congruence| |congruence].
  apply spreadToCell_keeps_flammable; auto.
Qed.

(** So the next burning token that proposes the cell draws for it again,
    whatever was visited in between, unless a cell at the same pixel
    position was. *)
Lemma failed_roll_repeats cell ch s between :
  wf s ->
  isFlammable grid s cell = true ->
  Js.lt (Roll (formula ch) (length (rolled (world s)))) (target ch) = true ->
  (forall c, c ∈ between -> getPixelPos grid c <> getPixelPos grid cell) ->
  isFlammable grid
    (run grid Roll ch between (spreadToCell grid Roll cell ch s)) cell = true /\
  rolled_since
    (run grid Roll ch between (spreadToCell grid Roll cell ch s))
    (spreadToCell grid Roll cell ch
       (run grid Roll ch between (spreadToCell grid Roll cell ch s)))
  = [(cell,
      Roll (formula ch)
        (length (rolled (world (run grid Roll ch between
                                  (spreadToCell grid Roll cell ch s))))))].
Proof.
  intros Hwf Hfl Hlt Hother.
  assert (Hwf1 : wf (spreadToCell grid Roll cell ch s)).
  { by destruct (spreadToCell_cases grid Roll cell ch s Hwf) as (? & _). }
  assert (Hfl' : isFlammable grid
                   (run grid Roll ch between (spreadToCell grid Roll cell ch s))
                   cell = true).
  { induction between as [|c between IH] using rev_ind.
    - by apply failed_roll_keeps_flammable.
    - rewrite run_snoc. apply spreadToCell_keeps_flammable.
      + by apply run_wf.
      + apply IH. intros c' Hc'. apply Hother. rewrite elem_of_app. by left.
      + right. apply Hother. rewrite elem_of_app, list_elem_of_singleton.
        by right. }
  split; [done|]. by rewrite visit_rolled, Hfl'.
Qed.

(** When every roll made for a cell in a step fails, the cell is rolled
    for once for each burning token that proposes it. *)
Lemma failed_rolls_count ch cell s :
  wf s ->
  isFlammable grid s cell = true ->
  (forall c, c ∈ visits grid s ->
             getPixelPos grid c = getPixelPos grid cell -> c = cell) ->
  Forall (fun t => Js.lt t (target ch) = true)
         (rolls_for cell (rolled_since s (spread_enter grid Roll ch s))) ->
  length (rolls_for cell (rolled_since s (spread_enter grid Roll ch s)))
  = length (List.filter (fun c => bool_decide (c = cell)) (visits grid s)).
Proof.
  intros Hwf Hfl Hinj Hall. rewrite spread_enter_run in Hall |- *.
  set (s0 := with_spreading true s) in *.
  change (rolled_since s) with (rolled_since s0) in Hall |- *.
  assert (Hwf0 : wf s0) by by apply with_spreading_wf.
  pose (fails := fun t => Js.lt t (target ch) = true).
  pose (P := fun (visited : list Cell) s1 =>
    (forall c, c ∈ visited ->
               getPixelPos grid c = getPixelPos grid cell -> c = cell) ->
    Forall fails (rolls_for cell (rolled_since s0 s1)) ->
    isFlammable grid s1 cell = true /\
    length (rolls_for cell (rolled_since s0 s1))
    = length (List.filter (fun c => bool_decide (c = cell)) visited)).
  assert (H0 : P [] s0).
  { intros _ _. by rewrite rolled_since_refl. }
  assert (Hstep : forall visited s1 cell',
             wf s1 -> frame s0 s1 -> P visited s1 ->
             P (visited ++ [cell']) (spreadToCell grid Roll cell' ch s1)).
  { intros visited s1 cell' Hwf1 Hf1 IH Hinj' Hall'.
    destruct (spreadToCell_cases grid Roll cell' ch s1 Hwf1) as (_ & Hf2 & Hc).
    rewrite (rolled_since_trans s0 s1 _ Hf1 Hf2), rolls_for_app in Hall' |- *.
    apply Forall_app in Hall' as [Hall1 Hall2].
    destruct IH as [Hfl1 Hlen]; [|done|].
    { intros c Hc'. apply Hinj'. rewrite elem_of_app. by left. }
    rewrite visit_rolls in Hall2 |- * by done.
    rewrite proposals_snoc, !length_app, Hlen.
    case_bool_decide as Heq; [subst cell'|].
    - rewrite Hfl1 in Hall2 |- *. cbn [andb] in Hall2 |- *.
      apply Forall_cons_1 in Hall2 as [Hfail _].
      split; [|done]. by apply failed_roll_keeps_flammable.
    - rewrite andb_false_r. split; [|done].
      apply spreadToCell_keeps_flammable; [done|done|]. right.
      intros Hpix. apply Heq, Hinj'; [|done].
      rewrite elem_of_app, list_elem_of_singleton. by right. }
  destruct (run_invariant grid Roll P ch s0 Hwf0 H0 Hstep (visits grid s))
    as (_ & _ & HP).
  by destruct (HP Hinj Hall).
Qed.

(** C2, as the program has it: a visit rolls exactly once when the proposed
    cell is flammable at that moment and not at all otherwise; in a step a
    cell is rolled for at most once per burning token that proposes it, and
    a roll that reaches the target is the last roll made for that cell.  A
    roll that fails leaves the cell flammable, so that the cell is rolled
    for again when another burning token proposes it, whatever cells at
    other pixel positions are visited in between: a cell whose rolls all
    fail is rolled for once per burning token that proposes it. *)
Theorem one_roll_per_flammable_visit ch cell s :
  wf s ->
  (forall s1,
     rolled_since s1 (spreadToCell grid Roll cell ch s1) =
     if isFlammable grid s1 cell
     then [(cell, Roll (formula ch) (length (rolled (world s1))))] else []) /\
  (length (rolls_for cell (rolled_since s (spread_enter grid Roll ch s)))
   <= length (List.filter (fun c => bool_decide (c = cell)) (visits grid s)))%nat /\
  (forall n l1 t l2,
     Js.ToNumber (target ch) = Some n ->
     rolls_for cell (rolled_since s (spread_enter grid Roll ch s)) = l1 ++ t :: l2 ->
     n <= t -> l2 = []) /\
  (forall s1 between,
     wf s1 ->
     isFlammable grid s1 cell = true ->
     Js.lt (Roll (formula ch) (length (rolled (world s1)))) (target ch) = true ->
     (forall c, c ∈ between -> getPixelPos grid c <> getPixelPos grid cell) ->
     isFlammable grid
       (run grid Roll ch between (spreadToCell grid Roll cell ch s1)) cell
     = true /\
     rolled_since
       (run grid Roll ch between (spreadToCell grid Roll cell ch s1))
       (spreadToCell grid Roll cell ch
          (run grid Roll ch between (spreadToCell grid Roll cell ch s1)))
     = [(cell,
         Roll (formula ch)
           (length (rolled (world (run grid Roll ch between
                                     (spreadToCell grid Roll cell ch s1))))))]) /\
  (isFlammable grid s cell = true ->
   (forall c, c ∈ visits grid s ->
              getPixelPos grid c = getPixelPos grid cell -> c = cell) ->
   Forall (fun t => Js.lt t (target ch) = true)
          (rolls_for cell (rolled_since s (spread_enter grid Roll ch s))) ->
   length (rolls_for cell (rolled_since s (spread_enter grid Roll ch s)))
   = length (List.filter (fun c => bool_decide (c = cell)) (visits grid s))).
Proof.
  intros Hwf. destruct (rolls_bounded ch cell s Hwf) as (Hvisit & Hbound & Hlast).
  split; [exact Hvisit|]. split; [exact Hbound|]. split; [exact Hlast|].
  split.
  - intros s1 between. apply failed_roll_repeats.
  - by apply failed_rolls_count.
Qed.

End Rolls.

Section StepScenes.

(** C2 fails as stated: with burning tokens in cells [0, 0] and [0, 2], the
    flammable cell [0, 1] is a neighbour of both; when the first roll for it
    fails (a total of 1 against a target of 7), the second burning token
    rolls for it again, so two draws are consumed for that cell. *)
Lemma failed_roll_is_repeated :
  (0, 1) ∈ getNeighbors Scene.grid (getGridPos Scene.grid (0, 0)) /\
  (0, 1) ∈ getNeighbors Scene.grid (getGridPos Scene.grid (100, 0)) /\
  burning (constructor Scene.source None Scene.two_fires) = [(0, 0); (100, 0)] /\
  isFlammable Scene.grid (constructor Scene.source None Scene.two_fires) (0, 1)
  = true /\
  rolls_for (0, 1)
    (rolled_since
       (constructor Scene.source None Scene.two_fires)
       (spread_enter Scene.grid (Scene.always 1) (Scene.d6 7)
          (constructor Scene.source None Scene.two_fires)))
  = [1; 1].
Proof.
  split; [concrete_elem|]. split; [concrete_elem|].
  split; [reflexivity|]. split; reflexivity.
Qed.

Lemma one_roll_per_flammable_visit_witness :
  wf (constructor Scene.source None Scene.two_fires) /\
  (length
     (rolls_for (0, 1)%Z
        (rolled_since
           (constructor Scene.source None Scene.two_fires)
           (spread_enter Scene.grid (Scene.always 1) (Scene.d6 7)
              (constructor Scene.source None Scene.two_fires))))
   <= length
        (List.filter (fun c => bool_decide (c = (0, 1)%Z))
           (visits Scene.grid (constructor Scene.source None Scene.two_fires))))%nat.
Proof.
  split; [concrete_wf|].
  apply (one_roll_per_flammable_visit Scene.grid (Scene.always 1) (Scene.d6 7)
           (0, 1) (constructor Scene.source None Scene.two_fires)).
  concrete_wf.
Defined.

(** The cell [-1, 0] lies outside the flammable field: a certain roll
    (every total 1 against a target of 0) does not ignite it. *)
Lemma unflammable_never_ignites_witness :
  wf (constructor Scene.source None Scene.one_fire) /\
  isInFlammableArea Scene.grid (constructor Scene.source None Scene.one_fire)
    (-1, 0) = false /\
  rolls_for (-1, 0)
    (rolled_since
       (constructor Scene.source None Scene.one_fire)
       (spread_enter Scene.grid (Scene.always 1) (Scene.d6 0)
          (constructor Scene.source None Scene.one_fire))) = [].
Proof.
  split; [concrete_wf|]. split; [reflexivity|].
  apply (unflammable_never_ignites Scene.grid (Scene.always 1) (-1, 0)
           (Scene.d6 0) (constructor Scene.source None Scene.one_fire)).
  - concrete_wf.
  - reflexivity.
Defined.

(** C4, on the code: a burning token that is not anchored at the corner of
    its cell is missed by [isBurning].  The token at pixel (10, 10) burns in
    cell [0, 0]: [spread] takes its cell with [getGridPos] and spreads from
    that cell, yet [isBurning] answers false for cell [0, 0], and the same
    step ignites that cell from the burning neighbour [0, 1].  The pending
    new fires then meet the cells that were burning when the step began, and
    once the commit has resolved two burning tokens stand in cell [0, 0]. *)
Theorem burning_cell_is_ignited_again :
  realFires (constructor Scene.source None Scene.off_grid)
  = [{| token_x := 10; token_y := 10; token_data := 0%nat |};
     {| token_x := 50; token_y := 0; token_data := 1%nat |}] /\
  getGridPos Scene.grid (10, 10) = (0, 0) /\
  getGridPos Scene.grid (50, 0) = (0, 1) /\
  (0, 0) ∈ getNeighbors Scene.grid (0, 1) /\
  pending (constructor Scene.source None Scene.off_grid) = [] /\
  isBurning Scene.grid (constructor Scene.source None Scene.off_grid) (0, 0)
  = false /\
  getPixelPos Scene.grid (0, 0)
    ∈ pending (spread_enter Scene.grid (Scene.always 1) default_chance
                 (constructor Scene.source None Scene.off_grid)) /\
  map (fun t => getGridPos Scene.grid (token_x t, token_y t))
      (realFires (snd (spread Scene.grid (Scene.always 1) None Resolved
                         (constructor Scene.source None Scene.off_grid))))
  = [(0, 0); (0, 1); (1, 0); (1, 1); (0, 0); (0, 2); (1, 2)].
Proof.
  split; [reflexivity|]. split; [reflexivity|]. split; [reflexivity|].
  split; [concrete_elem|]. split; [reflexivity|]. split; [reflexivity|].
  split; [concrete_elem|]. by vm_compute.
Qed.

Lemma no_double_ignition_witness :
  wf (constructor Scene.source None Scene.two_fires) /\
  spreading (this (constructor Scene.source None Scene.two_fires)) = false /\
  NoDup (pending (constructor Scene.source None Scene.two_fires)) /\
  newFires
    (this (snd (spread Scene.grid (Scene.always 1) None Resolved
                  (constructor Scene.source None Scene.two_fires)))) = [].
Proof.
  split; [concrete_wf|]. split; [reflexivity|]. split; [constructor|].
  apply (no_double_ignition Scene.grid (Scene.always 1) None
           (constructor Scene.source None Scene.two_fires)).
  - concrete_wf.
  - reflexivity.
  - constructor.
  - intros p Hp. by apply elem_of_nil in Hp.
Defined.

End StepScenes.

(** ** The threshold, and the default chance *)

Section Chances.

Variable grid : Grid.t.
Variable Roll : string -> nat -> Z.

Lemma spread_enter_burning ch s :
  wf s -> burning (spread_enter grid Roll ch s) = burning s.
Proof.
  intros Hwf. rewrite spread_enter_run.
  rewrite (burning_frame (with_spreading true s));
    [done|by apply with_spreading_wf|apply run_frame].
Qed.

(** When no roll can fail, every proposed cell inside a flammable area that
    was not burning is ignited. *)
Lemma certain_ignition ch s cell :
  wf s ->
  (forall k, Js.lt (Roll (formula ch) k) (target ch) = false) ->
  cell ∈ visits grid s ->
  isFlammable grid s cell = true ->
  getPixelPos grid cell ∈ pending (spread_enter grid Roll ch s).
Proof.
  intros Hwf Hsure Hin Hfl. apply isFlammable_true in Hfl as [Hnb Harea].
  pose proof (certain_spread grid Roll ch s Hwf Hsure cell Hin Harea) as Hb.
  apply isBurning_spec in Hb. rewrite spread_enter_burning in Hb by done.
  apply isBurning_false in Hnb.
  rewrite elem_of_app in Hb, Hnb. tauto.
Qed.

(** C5, as the program has it: a flammable cell is ignited iff the total
    rolled is at least the target; when the target exceeds every total the
    formula can yield nothing ignites, when it is at most every such total
    every proposed flammable cell ignites, and no target makes [spread]
    raise. *)
Theorem ignition_threshold f n s :
  wf s ->
  (forall cell,
      isFlammable grid s cell = true ->
      (getPixelPos grid cell
         ∈ pending (spreadToCell grid Roll cell
                      {| formula := f; target := Js.Num n |} s) <->
       n <= Roll f (length (rolled (world s))))) /\
  ((forall k, Roll f k < n) ->
   newFires (this (spread_enter grid Roll
                     {| formula := f; target := Js.Num n |} s))
   = newFires (this s)) /\
  ((forall k, n <= Roll f k) ->
   forall cell,
     cell ∈ visits grid s -> isFlammable grid s cell = true ->
     getPixelPos grid cell
       ∈ pending (spread_enter grid Roll
                    {| formula := f; target := Js.Num n |} s)) /\
  fst (spread grid Roll (Some {| formula := f; target := Js.Num n |})
         Resolved s) = Returned.
Proof.
  intros Hwf. split; [|split; [|split]].
  - intros cell Hfl.
    destruct (spreadToCell_cases grid Roll cell
                {| formula := f; target := Js.Num n |} s Hwf) as (_ & _ & Hc).
    cbn [formula target] in Hc.
    destruct (proj1 (isFlammable_true grid s cell) Hfl) as [Hnb _].
    apply isBurning_false in Hnb. rewrite elem_of_app in Hnb.
    destruct Hc as [[Hno _]|[(_ & Hlt & _ & _ & _ & ->)|(_ & Hlt & _ & _ & ->)]].
    + congruence.
    + split; [tauto|]. intros Hge. apply lt_Num in Hge. congruence.
    + apply lt_Num in Hlt. split; [done|]. intros _.
      rewrite elem_of_app, list_elem_of_singleton. auto.
  - intros Hnever. apply impossible_spread; [done|].
    intros k. cbn. apply Z.ltb_lt, Hnever.
  - intros Hsure cell Hin Hfl. apply certain_ignition; try done.
    intros k. apply lt_Num, Hsure.
  - apply spread_returns.
Qed.

(** C9: an instance constructed without a chance has the formula ["1d1"]
    and the string ["1"] as target; a total of 1 is not less than it, so
    when ["1d1"] totals 1 every proposed flammable cell ignites. *)
Theorem default_chance_is_certain prototype W :
  (forall k, Roll "1d1" k = 1) ->
  Forall (fun t => (token_data t < length (store W))%nat) (tokens W) ->
  chance (this (constructor prototype None W))
  = {| formula := "1d1"; target := Js.Str "1" |} /\
  Js.ToNumber (Js.Str "1") = Some 1 /\
  Js.lt 1 (Js.Str "1") = false /\
  (forall o,
      spread grid Roll None o (constructor prototype None W)
      = spread grid Roll (Some {| formula := "1d1"; target := Js.Str "1" |}) o
          (constructor prototype None W)) /\
  (forall cell,
      cell ∈ visits grid (constructor prototype None W) ->
      isFlammable grid (constructor prototype None W) cell = true ->
      getPixelPos grid cell
        ∈ pending (spread_enter grid Roll
                     {| formula := "1d1"; target := Js.Str "1" |}
                     (constructor prototype None W))).
Proof.
  intros Hone HW. split; [reflexivity|]. split; [reflexivity|].
  split; [reflexivity|]. split; [reflexivity|].
  intros cell Hin Hfl. apply certain_ignition; try done.
  - by apply constructor_wf.
  - intros k. cbn [formula target]. by rewrite Hone.
Qed.

End Chances.

Section ChanceScenes.

(** C5 fails as stated for a target of zero: on the formula ["1d4-10"],
    whose totals are negative, the flammable neighbour [0, 1] of the burning
    cell is rolled for and not ignited. *)
Lemma zero_target_is_not_certain :
  (0, 1) ∈ visits Scene.grid (constructor Scene.source None Scene.one_fire) /\
  isFlammable Scene.grid (constructor Scene.source None Scene.one_fire) (0, 1)
  = true /\
  rolled (world (spread_enter Scene.grid Scene.lowest_face
                   {| formula := "1d4-10"; target := Js.Num 0 |}
                   (constructor Scene.source None Scene.one_fire)))
  = [((0, 1), -9); ((1, 0), -9); ((1, 1), -9)] /\
  newFires (this (spread_enter Scene.grid Scene.lowest_face
                    {| formula := "1d4-10"; target := Js.Num 0 |}
                    (constructor Scene.source None Scene.one_fire))) = [] /\
  isBurning Scene.grid
    (spread_enter Scene.grid Scene.lowest_face
       {| formula := "1d4-10"; target := Js.Num 0 |}
       (constructor Scene.source None Scene.one_fire)) (0, 1) = false.
Proof.
  split; [concrete_elem|]. repeat split; reflexivity.
Qed.

Lemma ignition_threshold_witness :
  wf (constructor Scene.source None Scene.one_fire) /\
  fst (spread Scene.grid (Scene.always 1)
         (Some {| formula := "1d6"; target := Js.Num 7 |}) Resolved
         (constructor Scene.source None Scene.one_fire)) = Returned.
Proof.
  split; [concrete_wf|].
  apply (ignition_threshold Scene.grid (Scene.always 1) "1d6" 7
           (constructor Scene.source None Scene.one_fire)).
  concrete_wf.
Defined.

Lemma default_chance_is_certain_witness :
  (forall k, Scene.always 1 "1d1" k = 1) /\
  Forall (fun t => (token_data t < length (store Scene.one_fire))%nat)
         (tokens Scene.one_fire) /\
  Js.lt 1 (Js.Str "1") = false.
Proof.
  split; [reflexivity|]. split; [repeat constructor|].
  apply (default_chance_is_certain Scene.grid (Scene.always 1) Scene.source
           Scene.one_fire).
  - reflexivity.
  - repeat constructor.
Defined.

End ChanceScenes.

(** ** The guard *)

Section Guard.

Variable grid : Grid.t.
Variable Roll : string -> nat -> Z.

Lemma spread_guarded arg o s :
  spreading (this s) = true -> spread grid Roll arg o s = (Returned, s).
Proof. intros H. unfold spread. by rewrite H. Qed.

(** C1, on the code: when the commit is rejected, [spread] raises the
    host's error, and it leaves [spreading] set and [newFires] uncleared,
    so that every later call of [spread] on the instance returns at the
    guard without doing anything. *)
Theorem rejected_commit_keeps_guard arg err s :
  spreading (this s) = false ->
  fst (spread grid Roll arg (Rejected err) s) = Raised err /\
  spreading (this (snd (spread grid Roll arg (Rejected err) s))) = true /\
  snd (spread grid Roll arg (Rejected err) s)
  = spread_enter grid Roll (default (chance (this s)) arg) s /\
  (forall arg' o,
      spread grid Roll arg' o (snd (spread grid Roll arg (Rejected err) s))
      = (Returned, snd (spread grid Roll arg (Rejected err) s))).
Proof.
  intros Hidle.
  assert (Heq : spread grid Roll arg (Rejected err) s
                = (Raised err,
                   spread_enter grid Roll (default (chance (this s)) arg) s)).
  { unfold spread. rewrite Hidle. unfold createNewFires. cbn.
    by destruct (spread_enter grid Roll _ s). }
  rewrite Heq. cbn [fst snd].
  split; [done|]. split; [apply spread_enter_spreading|]. split; [done|].
  intros arg' o. apply spread_guarded, spread_enter_spreading.
Qed.

Lemma only_one {A} (l1 l2 : list A) (p q : A) :
  l1 ++ p :: l2 = [q] -> l1 = [] /\ l2 = [] /\ p = q.
Proof.
  destruct l1 as [|a l1]; cbn.
  - intros [= -> ->]. done.
  - intros [= _ Hl]. by destruct l1.
Qed.

(** What holds of the suspended activations in every reachable system:
    there is at most one; while there is one the guard is set; and whenever
    the guard is clear nothing is pending. *)
Lemma reachable_inflight sys :
  reachable grid Roll sys ->
  (inflight sys = [] /\
   (spreading (this (state sys)) = false -> newFires (this (state sys)) = [])) \/
  (exists data, inflight sys = [AwaitCreateMany data] /\
                spreading (this (state sys)) = true) \/
  (inflight sys = [AwaitCreateNewFires] /\
   spreading (this (state sys)) = true /\ newFires (this (state sys)) = []).
Proof.
  induction 1 as [prototype arg W|sys e sys' _ IH Hstep].
  - left. by split.
  - destruct Hstep as [arg s l Hsp|arg s l s' Hidle ->|s l1 data l2
                      |err s l1 data l2|s l1 l2|W s l]; cbn in *.
    + done.
    + destruct IH as [[-> _]|[(data & _ & Hsp)|(_ & Hsp & _)]]; try congruence.
      right; left. eexists. split; [done|]. apply spread_enter_spreading.
    + destruct IH as [[Hl _]|[(data' & Hl & Hsp)|(Hl & _)]].
      * by destruct l1.
      * apply only_one in Hl as (-> & -> & _).
        right; right. by repeat split.
      * by apply only_one in Hl as (_ & _ & ?).
    + destruct IH as [[Hl _]|[(data' & Hl & Hsp)|(Hl & _)]].
      * by destruct l1.
      * apply only_one in Hl as (-> & -> & _).
        left. split; [done|congruence].
      * by apply only_one in Hl as (_ & _ & ?).
    + destruct IH as [[Hl _]|[(data' & Hl & Hsp)|(Hl & _ & Hnf)]].
      * by destruct l1.
      * by apply only_one in Hl as (_ & _ & ?).
      * apply only_one in Hl as (-> & -> & _).
        left. by split.
    + done.
Qed.

(** A step can only begin with nothing pending and nothing suspended. *)
Lemma reachable_idle sys :
  reachable grid Roll sys ->
  spreading (this (state sys)) = false ->
  newFires (this (state sys)) = [] /\ inflight sys = [].
Proof.
  intros Hreach Hidle.
  destruct (reachable_inflight sys Hreach)
    as [[Hl Hnf]|[(data & _ & Hsp)|(_ & Hsp & _)]]; [auto|congruence..].
Qed.

(** [spread] run to the end is one interleaving: the call, the settling
    of the commit and, when it resolved, the resumption. *)
Lemma spread_resolved_steps arg s :
  spreading (this s) = false ->
  exists s1 s2,
    step grid Roll {| state := s; inflight := [] |} (CallSpread arg)
         {| state := s1; inflight := [AwaitCreateMany (newFires (this s1))] |} /\
    step grid Roll
         {| state := s1; inflight := [AwaitCreateMany (newFires (this s1))] |}
         CommitResolved
         {| state := s2; inflight := [AwaitCreateNewFires] |} /\
    step grid Roll {| state := s2; inflight := [AwaitCreateNewFires] |} Resume
         {| state := snd (spread grid Roll arg Resolved s); inflight := [] |}.
Proof.
  intros Hidle.
  exists (spread_enter grid Roll (default (chance (this s)) arg) s).
  eexists. split; [by apply (step_enter grid Roll arg s [])|].
  split; [apply (step_resolved grid Roll _ [] _ [])|].
  unfold spread. rewrite Hidle. apply (step_resume grid Roll _ [] []).
Qed.

Lemma spread_rejected_steps arg err s :
  spreading (this s) = false ->
  exists s1,
    step grid Roll {| state := s; inflight := [] |} (CallSpread arg)
         {| state := s1; inflight := [AwaitCreateMany (newFires (this s1))] |} /\
    step grid Roll
         {| state := s1; inflight := [AwaitCreateMany (newFires (this s1))] |}
         (CommitRejected err)
         {| state := snd (spread grid Roll arg (Rejected err) s);
            inflight := [] |}.
Proof.
  intros Hidle.
  exists (spread_enter grid Roll (default (chance (this s)) arg) s).
  split; [by apply (step_enter grid Roll arg s [])|].
  unfold spread. rewrite Hidle. unfold createNewFires. cbn.
  destruct (spread_enter grid Roll _ s) as [w W].
  apply (step_rejected grid Roll err _ [] _ []).
Qed.

(** C7: in every reachable system at most one activation of [spread] is
    suspended, and only while the guard is set; a call of [spread] that
    finds the guard set returns without raising and leaves the instance,
    the world (with its history of rolls) and the suspended activations
    exactly as they were. *)
Theorem guarded_spread_is_noop sys :
  reachable grid Roll sys ->
  (length (inflight sys) <= 1)%nat /\
  (inflight sys <> [] -> spreading (this (state sys)) = true) /\
  (spreading (this (state sys)) = true ->
   forall arg,
     (forall o, spread grid Roll arg o (state sys) = (Returned, state sys)) /\
     (forall sys', step grid Roll sys (CallSpread arg) sys' -> sys' = sys)).
Proof.
  intros Hreach. pose proof (reachable_inflight sys Hreach) as Hinv.
  split; [|split].
  - destruct Hinv as [[-> _]|[(data & -> & _)|(-> & _)]]; cbn; lia.
  - destruct Hinv as [[-> _]|[(data & _ & ?)|(_ & ? & _)]]; done.
  - intros Hsp arg. split; [intros o; by apply spread_guarded|].
    intros sys' Hstep. inversion Hstep; subst; cbn in *; [done|congruence].
Qed.

End Guard.

(** ** The template *)

Section Template.

Variable grid : Grid.t.
Variable Roll : string -> nat -> Z.

Lemma token_get_eq s :
  token_get s =
  (with_world (with_store (store (world s) ++ [template s]) (world s)) s,
   length (store (world s))).
Proof. reflexivity. Qed.

Lemma constructor_template prototype arg W :
  template (constructor prototype arg W) = store W !!! token_data prototype.
Proof. unfold template, constructor, token_set. cbn. apply lookup_new. Qed.

Lemma constructor_token prototype arg W :
  _token (this (constructor prototype arg W)) = length (store W).
Proof. reflexivity. Qed.

Lemma mutate_template r f s :
  r <> _token (this s) -> template (mutate r f s) = template s.
Proof. intros Hne. unfold template, mutate. cbn. by apply write_other. Qed.

Lemma mutate_wf r f s : wf s -> wf (mutate r f s).
Proof.
  intros (Hts & Hnf & Hlt). unfold wf, mutate. cbn. by rewrite write_length.
Qed.

Lemma ignition_eq cell s :
  ignition grid cell s =
  set_y (snd (getPixelPos grid cell))
        (set_x (fst (getPixelPos grid cell)) (template s)).
Proof.
  unfold ignition. rewrite light_eq. cbn. by rewrite last_last, lookup_second.
Qed.

(** A visit that ignites is [light] after the roll has been recorded. *)
Lemma spreadToCell_lit cell ch s :
  isFlammable grid s cell = true ->
  Js.lt (Roll (formula ch) (length (rolled (world s)))) (target ch) = false ->
  spreadToCell grid Roll cell ch s =
  light grid cell
    (with_world
       (with_rolled
          (rolled (world s)
             ++ [(cell, Roll (formula ch) (length (rolled (world s))))])
          (world s)) s).
Proof. intros Hfl Hlt. unfold spreadToCell. by rewrite Hfl, Hlt. Qed.

(** Every record that a step appends to [newFires] is the template with
    the pixel position of some cell written into it. *)
Lemma spread_enter_records ch s :
  wf s ->
  newFires (this s) = [] ->
  Forall (fun data => exists cell,
            store (world (spread_enter grid Roll ch s)) !!! data
            = ignition grid cell s)
         (newFires (this (spread_enter grid Roll ch s))).
Proof.
  intros Hwf Hnil. rewrite spread_enter_run.
  set (s0 := with_spreading true s).
  assert (Hwf0 : wf s0) by by apply with_spreading_wf.
  refine (proj2 (proj2 (run_invariant grid Roll
    (fun _ s1 => Forall (fun data => exists cell,
                           store (world s1) !!! data = ignition grid cell s)
                        (newFires (this s1)))
    ch s0 Hwf0 _ _ (visits grid s))));
    [cbn; rewrite Hnil; constructor|].
  intros _ s1 cell Hwf1 Hf1 IH.
  assert (Htpl : template s1 = template s) by by rewrite (template_frame s0 s1).
  destruct (spreadToCell_cases grid Roll cell ch s1 Hwf1) as (_ & _ & Hc).
  destruct Hc as [[_ ->]|[(_ & _ & _ & -> & -> & _)|(Hfl & Hlt & _)]];
    try done.
  rewrite (spreadToCell_lit cell ch s1 Hfl Hlt), light_eq. cbn.
  destruct Hwf1 as (_ & Hnf & _).
  apply Forall_app. split.
  - clear -IH Hnf. induction Hnf as [|r refs Hr _ IHrefs]; [constructor|].
    apply Forall_cons_1 in IH as [[c Hc] IH]. constructor; [|by apply IHrefs].
    exists c. by rewrite lookup_grown.
  - constructor; [|constructor]. exists cell.
    rewrite lookup_second, ignition_eq. unfold template in *. cbn.
    by rewrite Htpl.
Qed.

(** A whole call of [spread] leaves the template as it was. *)
Lemma place_store W data : exists k, store (place W data) = store W ++ k.
Proof. unfold place. cbn. eauto. Qed.

Lemma places_store data W :
  exists k, store (fold_left place data W) = store W ++ k.
Proof.
  revert W. induction data as [|r data IH]; intros W.
  - exists []. by rewrite app_nil_r.
  - cbn [fold_left]. destruct (IH (place W r)) as [k Hk].
    destruct (place_store W r) as [k' Hk']. exists (k' ++ k).
    by rewrite Hk, Hk', app_assoc.
Qed.

Lemma createMany_store o data W :
  exists k, store (snd (createMany o data W)) = store W ++ k.
Proof.
  destruct o as [|err]; cbn [createMany snd]; [apply places_store|].
  exists []. by rewrite app_nil_r.
Qed.

Lemma spread_template arg o s :
  wf s -> template (snd (spread grid Roll arg o s)) = template s.
Proof.
  intros Hwf. unfold spread. destruct (spreading (this s)); [done|].
  set (ch := default (chance (this s)) arg).
  set (s1 := spread_enter grid Roll ch s).
  assert (Hf : frame (with_spreading true s) s1).
  { unfold s1. rewrite spread_enter_run. apply run_frame. }
  assert (H1 : template s1 = template s).
  { by rewrite (template_frame (with_spreading true s) s1);
      [|apply with_spreading_wf|]. }
  assert (Hlt : (_token (this s1) < length (store (world s1)))%nat).
  { unfold s1. rewrite spread_enter_run.
    by apply (run_wf grid Roll ch _ _ (with_spreading_wf true s Hwf)). }
  unfold createNewFires.
  destruct (createMany_store o (newFires (this s1)) (world s1)) as [k Hk].
  destruct (createMany o (newFires (this s1)) (world s1)) as [[|err] W'];
    cbn in Hk |- *; rewrite <- H1; unfold template; cbn; rewrite Hk;
    by apply lookup_grown.
Qed.

(** C8: the template is a copy of the prototype's data made when the
    instance is constructed, every read of it returns a new copy, and every
    ignition record is a further copy.  So a later write to any object that
    existed before the construction (the source token's data among them)
    changes neither the template nor the records ignited afterwards, and a
    write to an object returned by a read, or to an ignition record, changes
    neither the template nor later reads nor later records. *)
Theorem template_isolation prototype arg W :
  Forall (fun t => (token_data t < length (store W))%nat) (tokens W) ->
  template (constructor prototype arg W) = store W !!! token_data prototype /\
  (forall r f,
      (r < length (store W))%nat ->
      template (mutate r f (constructor prototype arg W))
      = store W !!! token_data prototype /\
      (forall cell,
          ignition grid cell (mutate r f (constructor prototype arg W))
          = ignition grid cell (constructor prototype arg W)) /\
      (forall ch,
          Forall (fun data => exists cell,
                    store (world (spread_enter grid Roll ch
                                    (mutate r f (constructor prototype arg W))))
                      !!! data
                    = ignition grid cell (constructor prototype arg W))
                 (newFires (this (spread_enter grid Roll ch
                                    (mutate r f (constructor prototype arg W)))))) /\
      (forall arg' o,
          template (snd (spread grid Roll arg' o
                           (mutate r f (constructor prototype arg W))))
          = store W !!! token_data prototype)) /\
  (forall s,
      (_token (this s) < length (store (world s)))%nat ->
      store (world (fst (token_get s))) !!! snd (token_get s) = template s /\
      snd (token_get s) <> _token (this (fst (token_get s))) /\
      (forall f,
          template (mutate (snd (token_get s)) f (fst (token_get s)))
          = template s /\
          store (world (fst (token_get
                              (mutate (snd (token_get s)) f (fst (token_get s))))))
            !!! snd (token_get (mutate (snd (token_get s)) f (fst (token_get s))))
          = template s /\
          (forall cell,
              ignition grid cell (mutate (snd (token_get s)) f (fst (token_get s)))
              = ignition grid cell s)) /\
      (forall cell f,
          template
            (mutate (List.last (newFires (this (light grid cell s))) 0%nat) f
                    (light grid cell s))
          = template s)).
Proof.
  intros HW.
  pose proof (constructor_template prototype arg W) as Htpl.
  pose proof (constructor_wf prototype arg W HW) as Hwf.
  split; [done|]. split.
  - intros r f Hr.
    assert (Hne : r <> _token (this (constructor prototype arg W))).
    { rewrite constructor_token. lia. }
    assert (Hm : template (mutate r f (constructor prototype arg W))
                 = template (constructor prototype arg W))
      by by apply mutate_template.
    split; [by rewrite Hm|]. split; [|split].
    + intros cell. by rewrite !ignition_eq, Hm.
    + intros ch.
      pose proof (spread_enter_records ch
                    (mutate r f (constructor prototype arg W))
                    (mutate_wf r f _ Hwf) eq_refl) as Hrec.
      eapply list.Forall_impl; [exact Hrec|]. cbn beta.
      intros data [cell Hc]. exists cell. by rewrite Hc, !ignition_eq, Hm.
    + intros arg' o. rewrite spread_template by by apply mutate_wf.
      by rewrite Hm.
  - intros s Hlt. rewrite token_get_eq. cbn [fst snd].
    set (s2 := with_world _ s).
    assert (Hne : length (store (world s)) <> _token (this s2)) by (cbn; lia).
    assert (H2 : template s2 = template s).
    { unfold template, s2. cbn. by apply lookup_grown. }
    split; [apply lookup_new|]. split; [done|]. split.
    + intros f.
      assert (Hm : template (mutate (length (store (world s))) f s2) = template s).
      { by rewrite mutate_template. }
      split; [done|]. split.
      * rewrite token_get_eq. cbn [fst snd].
        etransitivity; [apply lookup_new|done].
      * intros cell. by rewrite !ignition_eq, Hm.
    + intros cell f. rewrite mutate_template.
      * apply template_frame_token; [done|apply light_frame].
      * rewrite light_eq. cbn. rewrite last_last. lia.
Qed.

End Template.

Section GuardAndTemplateScenes.

(** A step whose commit is rejected: the call raises, the guard stays set,
    no activation is left, and the next call does nothing. *)
Lemma rejected_commit_keeps_guard_witness :
  spreading (this (constructor Scene.source None Scene.one_fire)) = false /\
  fst (spread Scene.grid (Scene.always 1) None (Rejected "createMany failed")
         (constructor Scene.source None Scene.one_fire))
  = Raised "createMany failed" /\
  spreading
    (this (snd (spread Scene.grid (Scene.always 1) None
                  (Rejected "createMany failed")
                  (constructor Scene.source None Scene.one_fire)))) = true.
Proof.
  split; [reflexivity|].
  pose proof (rejected_commit_keeps_guard Scene.grid (Scene.always 1) None
                "createMany failed"
                (constructor Scene.source None Scene.one_fire) eq_refl)
    as (Hraised & Hguard & _).
  exact (conj Hraised Hguard).
Defined.

Lemma stuck_guard_is_reachable :
  exists sys,
    reachable Scene.grid (Scene.always 1) sys /\
    inflight sys = [] /\
    spreading (this (state sys)) = true /\
    newFires (this (state sys)) <> [].
Proof.
  exists {| state := spread_enter Scene.grid (Scene.always 1) default_chance
                       (constructor Scene.source None Scene.one_fire);
            inflight := [] |}.
  split; [|split; [reflexivity|split; [reflexivity|by vm_compute]]].
  eapply reachable_step.
  - eapply reachable_step; [apply reachable_new|].
    apply (step_enter Scene.grid (Scene.always 1) None
             (constructor Scene.source None Scene.one_fire) []);
      reflexivity.
  - apply (step_rejected Scene.grid (Scene.always 1) "createMany failed" _ []).
Qed.

Lemma guarded_spread_is_noop_witness :
  reachable Scene.grid (Scene.always 1)
    {| state := spread_enter Scene.grid (Scene.always 1) default_chance
                  (constructor Scene.source None Scene.one_fire);
       inflight :=
         [AwaitCreateMany
            (newFires
               (this (spread_enter Scene.grid (Scene.always 1) default_chance
                        (constructor Scene.source None Scene.one_fire))))] |} /\
  (length
     (inflight
        {| state := spread_enter Scene.grid (Scene.always 1) default_chance
                      (constructor Scene.source None Scene.one_fire);
           inflight :=
             [AwaitCreateMany
                (newFires
                   (this (spread_enter Scene.grid (Scene.always 1) default_chance
                            (constructor Scene.source None Scene.one_fire))))] |})
   <= 1)%nat.
Proof.
  assert (Hreach :
    reachable Scene.grid (Scene.always 1)
      {| state := spread_enter Scene.grid (Scene.always 1) default_chance
                    (constructor Scene.source None Scene.one_fire);
         inflight :=
           [AwaitCreateMany
              (newFires
                 (this (spread_enter Scene.grid (Scene.always 1) default_chance
                          (constructor Scene.source None Scene.one_fire))))] |}).
  { eapply reachable_step; [apply reachable_new|].
    apply (step_enter Scene.grid (Scene.always 1) None
             (constructor Scene.source None Scene.one_fire) []);
      reflexivity. }
  split; [exact Hreach|].
  exact (proj1 (guarded_spread_is_noop Scene.grid (Scene.always 1) _ Hreach)).
Defined.

Lemma template_isolation_witness :
  Forall (fun t => (token_data t < length (store Scene.one_fire))%nat)
         (tokens Scene.one_fire) /\
  template (constructor Scene.source None Scene.one_fire) = Scene.fire_data 0 0.
Proof.
  split; [repeat constructor|].
  exact (proj1 (template_isolation Scene.grid (Scene.always 1) Scene.source None
                  Scene.one_fire ltac:(repeat constructor))).
Defined.

(** The end to end scene: one burning cell [0, 0], cell size 50, a flammable
    field from (0, 0) to (150, 150), and a certain roll.  The step ignites
    the three neighbours inside the field, commits them and notifies their
    count. *)
Example end_to_end :
  pending (spread_enter Scene.grid (Scene.always 1) (Scene.d6 0)
             (constructor Scene.source None Scene.one_fire))
  = [(50, 0); (0, 50); (50, 50)] /\
  map (fun t => (token_x t, token_y t))
      (tokens (world (snd (spread Scene.grid (Scene.always 1)
                             (Some (Scene.d6 0)) Resolved
                             (constructor Scene.source None Scene.one_fire)))))
  = [(0, 0); (50, 0); (0, 50); (50, 50)] /\
  notified (world (snd (spread Scene.grid (Scene.always 1)
                          (Some (Scene.d6 0)) Resolved
                          (constructor Scene.source None Scene.one_fire))))
  = [3%nat].
Proof. repeat split; reflexivity. Qed.

End GuardAndTemplateScenes.

(** * Further properties of the code *)

(** ** The commit *)

Section Commit.

Variable grid : Grid.t.
Variable Roll : string -> nat -> Z.









(** The state after a whole step whose commit resolved. *)
Lemma spread_resolved_eq arg s :
  spreading (this s) = false ->
  snd (spread grid Roll arg Resolved s) =
  spread_resume
    (createNewFires_resume
       (with_world
          (fold_left place
             (newFires (this (spread_enter grid Roll
                                (default (chance (this s)) arg) s)))
             (world (spread_enter grid Roll
                       (default (chance (this s)) arg) s)))
          (spread_enter grid Roll (default (chance (this s)) arg) s))).
Proof. intros Hidle. unfold spread. by rewrite Hidle. Qed.





End Commit.

(** ** What a step reaches *)

Section Reach.

Variable grid : Grid.t.
Variable Roll : string -> nat -> Z.




(** Where the pending fires and the rolls of a step come from. *)
Lemma reach_of_step ch s :
  wf s ->
  newFires (this s) = [] ->
  Forall (fun p => exists cell,
            cell ∈ visits grid s /\ p = getPixelPos grid cell /\
            isInFlammableArea grid s cell = true /\
            isBurning grid s cell = false)
         (pending (spread_enter grid Roll ch s)) /\
  Forall (fun e => fst e ∈ visits grid s)
         (rolled_since s (spread_enter grid Roll ch s)) /\
  (length (rolled_since s (spread_enter grid Roll ch s))
   <= length (visits grid s))%nat.
Proof.
  intros Hwf Hnil. rewrite spread_enter_run.
  set (s0 := with_spreading true s).
  change (rolled_since s) with (rolled_since s0).
  assert (Hwf0 : wf s0) by by apply with_spreading_wf.
  pose (P := fun (visited : list Cell) s1 =>
    (forall c, isBurning grid s c = true -> isBurning grid s1 c = true) /\
    Forall (fun p => exists cell,
              cell ∈ visited /\ p = getPixelPos grid cell /\
              isInFlammableArea grid s cell = true /\
              isBurning grid s cell = false) (pending s1) /\
    Forall (fun e => fst e ∈ visited) (rolled_since s0 s1) /\
    (length (rolled_since s0 s1) <= length visited)%nat).
  assert (H0 : P [] s0).
  { unfold P. rewrite rolled_since_refl. unfold pending. cbn. rewrite Hnil.
    repeat split; try done; constructor. }
  assert (Hstep : forall visited s1 cell,
             wf s1 -> frame s0 s1 -> P visited s1 ->
             P (visited ++ [cell]) (spreadToCell grid Roll cell ch s1)).
  { intros visited s1 cell Hwf1 Hf1 (Hmono & Hpend & Hrolls & Hlen). unfold P.
    destruct (spreadToCell_cases grid Roll cell ch s1 Hwf1) as (_ & Hf2 & Hc).
    rewrite (rolled_since_trans s0 s1 _ Hf1 Hf2), visit_rolled.
    assert (Hpend' : Forall (fun p => exists c,
                        c ∈ visited ++ [cell] /\ p = getPixelPos grid c /\
                        isInFlammableArea grid s c = true /\
                        isBurning grid s c = false) (pending s1)).
    { eapply list.Forall_impl; [exact Hpend|]. cbn beta.
      intros p (c & ? & ?). exists c. rewrite elem_of_app. auto. }
    assert (Hrolls' : Forall (fun e => fst e ∈ visited ++ [cell])
                             (rolled_since s0 s1)).
    { eapply list.Forall_impl; [exact Hrolls|]. cbn beta.
      intros e ?. rewrite elem_of_app. auto. }
    split; [|split; [|split]].
    - intros c Hc'. apply spreadToCell_isBurning; auto.
    - destruct Hc as [[_ ->]|[(_ & _ & _ & _ & _ & ->)|(Hfl & _ & _ & _ & ->)]];
        try done.
      apply Forall_app. split; [done|]. constructor; [|constructor].
      exists cell. apply isFlammable_true in Hfl as [Hnb Harea].
      rewrite (isInFlammableArea_frame grid s0 s1) in Harea by done.
      split; [rewrite elem_of_app, list_elem_of_singleton; auto|].
      split; [done|]. split; [done|].
      destruct (isBurning grid s cell) eqn:Hb; [|done].
      apply Hmono in Hb. congruence.
    - apply Forall_app. split; [done|].
      destruct (isFlammable grid s1 cell); constructor; [|constructor].
      cbn. rewrite elem_of_app, list_elem_of_singleton. auto.
    - rewrite !length_app. cbn [length].
      destruct (isFlammable grid s1 cell); cbn; lia. }
  destruct (run_invariant grid Roll P ch s0 Hwf0 H0 Hstep (visits grid s))
    as (_ & _ & _ & Hpend & Hrolls & Hlen).
  done.
Qed.

(** X4: a step rolls only for, and ignites only, neighbours of the cells
    of the tokens that were burning when it began: every pending position is
    that of such a neighbour, which lies in a flammable area and was not
    burning, and every roll is for such a neighbour, at most one per visit.
    Fires lit during the step do not spread within it. *)
Theorem fire_reaches_neighbours_only ch s :
  wf s ->
  newFires (this s) = [] ->
  Forall (fun p => exists cell,
            cell ∈ visits grid s /\ p = getPixelPos grid cell /\
            isInFlammableArea grid s cell = true /\
            isBurning grid s cell = false)
         (pending (spread_enter grid Roll ch s)) /\
  Forall (fun e => fst e ∈ visits grid s)
         (rolled_since s (spread_enter grid Roll ch s)) /\
  (length (rolled_since s (spread_enter grid Roll ch s))
   <= length (visits grid s))%nat.
Proof. apply reach_of_step. Qed.

Lemma run_noop ch cells s :
  (forall cell, isFlammable grid s cell = false) ->
  run grid Roll ch cells s = s.
Proof.
  intros Hno. induction cells as [|cell cells IH]; [done|].
  cbn. unfold run in IH. by rewrite spreadToCell_not_flammable.
Qed.

(** X5: when no token is burning, or no drawing is flagged flammable, a
    step makes no roll and changes nothing but the guard; if its commit
    resolves, what is left of it is the notification of a count of 0. *)
Theorem nothing_to_burn arg s :
  spreading (this s) = false ->
  newFires (this s) = [] ->
  realFires s = [] \/ flammableAreas s = [] ->
  spread_enter grid Roll (default (chance (this s)) arg) s
  = with_spreading true s /\
  snd (spread grid Roll arg Resolved s)
  = with_world (with_notified (notified (world s) ++ [0%nat]) (world s)) s.
Proof.
  intros Hidle Hnil Hnone.
  assert (Henter : spread_enter grid Roll (default (chance (this s)) arg) s
                   = with_spreading true s).
  { rewrite spread_enter_run. destruct Hnone as [Hreal|Hareas].
    - unfold visits. by rewrite Hreal.
    - apply run_noop. intros cell.
      unfold isFlammable, isInFlammableArea.
      change (flammableAreas (with_spreading true s)) with (flammableAreas s).
      rewrite Hareas. cbn. apply andb_false_r. }
  split; [done|].
  rewrite spread_resolved_eq, Henter by done.
  destruct s as [[tok ch nf sp] W]. cbn in *. subst. reflexivity.
Qed.

(** X6: for a drawing of positive width and height on a grid of positive
    cell size, [areaContains] is true exactly when the drawing and the
    cell's square have a pixel in common, each read as the pixels from its
    top left corner up to, and not including, its right and bottom
    edges. *)
Theorem areaContains_shared_pixel area cell :
  0 < drawing_width area ->
  0 < drawing_height area ->
  0 < gridSize grid ->
  areaContains grid area cell = true <->
  exists x y,
    (drawing_x area <= x < drawing_x area + drawing_width area /\
     drawing_y area <= y < drawing_y area + drawing_height area) /\
    (fst (getPixelPos grid cell) <= x
       < fst (getPixelPos grid cell) + gridSize grid /\
     snd (getPixelPos grid cell) <= y
       < snd (getPixelPos grid cell) + gridSize grid).
Proof.
  intros Hw Hh Hg. rewrite areaContains_overlaps.
  rewrite overlaps_shared_pixel.
  - unfold area_rect, cell_rect. by destruct (getPixelPos grid cell).
  - cbn. lia.
  - cbn. lia.
  - unfold cell_rect. destruct (getPixelPos grid cell). cbn. lia.
  - unfold cell_rect. destruct (getPixelPos grid cell). cbn. lia.
Qed.

End Reach.

(** ** The batch handed to the host *)

Section Batch.

Variable grid : Grid.t.
Variable Roll : string -> nat -> Z.

Lemma places_notified data W :
  notified (fold_left place data W) = notified W.
Proof.
  revert W. induction data as [|r data IH]; intros W; [done|].
  cbn [fold_left]. by rewrite IH.
Qed.

(** While an activation waits for the host, [newFires] is still the batch
    that was handed over. *)
Lemma reachable_batch sys :
  reachable grid Roll sys ->
  forall data,
    inflight sys = [AwaitCreateMany data] ->
    newFires (this (state sys)) = data.
Proof.
  induction 1 as [prototype arg W|sys e sys' Hreach IH Hstep]; [done|].
  pose proof (reachable_inflight grid Roll sys Hreach) as Hinv.
  destruct Hstep as [arg s l Hsp|arg s l s' Hidle ->|s l1 data l2
                    |err s l1 data l2|s l1 l2|W s l]; cbn in *.
  - done.
  - destruct Hinv as [[-> _]|[(? & _ & ?)|(_ & ? & _)]]; try congruence.
    intros data [= <-]. done.
  - intros data' Heq.
    destruct Hinv as [[Hl _]|[(d & Hl & _)|(Hl & _)]].
    + by destruct l1.
    + apply only_one in Hl as (-> & -> & _). done.
    + apply only_one in Hl as (-> & -> & _). done.
  - intros data' Heq.
    destruct Hinv as [[Hl _]|[(d & Hl & _)|(Hl & _)]].
    + by destruct l1.
    + apply only_one in Hl as (-> & -> & _). done.
    + apply only_one in Hl as (-> & -> & _). done.
  - intros data' Heq.
    destruct Hinv as [[Hl _]|[(d & Hl & _)|(Hl & _)]].
    + by destruct l1.
    + apply only_one in Hl as (-> & -> & _). done.
    + apply only_one in Hl as (-> & -> & _). done.
  - done.
Qed.

(** X7: in every reachable system, when the host resolves a commit, the
    batch it was handed is still the instance's [newFires]: no call of
    [spread] and no change by the host in between has touched it.  So the
    count notified is the size of the batch that was committed, and
    [newFires] is empty afterwards. *)
Theorem notified_count_is_the_batch sys sys' :
  reachable grid Roll sys ->
  step grid Roll sys CommitResolved sys' ->
  exists data,
    inflight sys = [AwaitCreateMany data] /\
    newFires (this (state sys)) = data /\
    notified (world (state sys'))
    = notified (world (state sys)) ++ [length data] /\
    newFires (this (state sys')) = [] /\
    inflight sys' = [AwaitCreateNewFires].
Proof.
  intros Hreach Hstep.
  pose proof (reachable_inflight grid Roll sys Hreach) as Hinv.
  pose proof (reachable_batch sys Hreach) as Hbatch.
  inversion Hstep as [| |s l1 data l2 Hsys Hev Hsys'| | |]; subst; cbn in *.
  destruct Hinv as [[Hl _]|[(d & Hl & _)|(Hl & _)]].
  - by destruct l1.
  - apply only_one in Hl as (-> & -> & [= ->]). exists d. cbn.
    rewrite (Hbatch d eq_refl), places_notified. done.
  - by apply only_one in Hl as (_ & _ & ?).
Qed.

End Batch.

(** ** Creating a wildfire *)

Section Registry.

Lemma flagged_source source (h : list TokenData) :
  (token_data source < length h)%nat ->
  write (set_fire true) (token_data source) h !!! token_data source
  = set_fire true (h !!! token_data source).
Proof. intros Hin. unfold write. by rewrite list_lookup_total_insert_eq. Qed.

(** X8: with an active combat, [createWildfire] flags the source token,
    appends one instance to [game.wildfires] (creating the list when it is
    absent) and one fire combatant with the source's image and name to the
    combat.  The instance is idle with nothing pending, has the given
    formula and target, and its template is a copy of the source's data
    taken after the flag was set, so the template carries the fire flag.
    The tokens and drawings on the canvas are as they were. *)
Theorem createWildfire_registers source f t g cs :
  combatants g = Some cs ->
  (token_data source < length (store (canvas g)))%nat ->
  fst (createWildfire Resolved source f t g) = Returned /\
  wildfires (snd (createWildfire Resolved source f t g))
  = Some (default [] (wildfires g) ++
          [{| registered_fire :=
                {| _token := length (store (canvas g));
                   chance := {| formula := f; target := t |};
                   newFires := []; spreading := false |};
              registered_combatant :=
                {| combatant_fire := true;
                   combatant_img :=
                     data_img (store (canvas g) !!! token_data source);
                   combatant_name :=
                     data_name (store (canvas g) !!! token_data source) |} |}]) /\
  combatants (snd (createWildfire Resolved source f t g))
  = Some (cs ++
          [{| combatant_fire := true;
              combatant_img :=
                data_img (store (canvas g) !!! token_data source);
              combatant_name :=
                data_name (store (canvas g) !!! token_data source) |}]) /\
  store (canvas (snd (createWildfire Resolved source f t g)))
  = write (set_fire true) (token_data source) (store (canvas g))
    ++ [set_fire true (store (canvas g) !!! token_data source)] /\
  store (canvas (snd (createWildfire Resolved source f t g)))
    !!! length (store (canvas g))
  = set_fire true (store (canvas g) !!! token_data source) /\
  tokens (canvas (snd (createWildfire Resolved source f t g)))
  = tokens (canvas g) /\
  drawings (canvas (snd (createWildfire Resolved source f t g)))
  = drawings (canvas g) /\
  messages (snd (createWildfire Resolved source f t g)) = messages g.
Proof.
  intros Hcs Hin. destruct g as [W fs cs0 ms]. cbn in Hcs, Hin. subst cs0.
  unfold createWildfire, constructor, token_set, setFlag_fire, duplicate.
  cbn. rewrite !lookup_grown by by rewrite write_length.
  rewrite !flagged_source, write_length by done.
  assert (Hnew : (write (set_fire true) (token_data source) (store W)
                    ++ [set_fire true (store W !!! token_data source)])
                   !!! length (store W)
                 = set_fire true (store W !!! token_data source)).
  { rewrite <- (write_length (store W) (token_data source) (set_fire true)).
    apply lookup_new. }
  destruct fs; cbn; by rewrite Hnew.
Qed.

(** X9: when no combat is active, [createWildfire] raises a TypeError
    after it has flagged the source token: nothing is registered and no
    combatant is added, but the token now counts as burning for every
    instance.  When the flagging itself is rejected the call raises that
    error and changes nothing. *)
Theorem createWildfire_without_combat source f t g :
  combatants g = None ->
  (token_data source < length (store (canvas g)))%nat ->
  fst (createWildfire Resolved source f t g) = Raised "TypeError" /\
  wildfires (snd (createWildfire Resolved source f t g)) = wildfires g /\
  combatants (snd (createWildfire Resolved source f t g)) = None /\
  tokens (canvas (snd (createWildfire Resolved source f t g)))
  = tokens (canvas g) /\
  data_fire (store (canvas (snd (createWildfire Resolved source f t g)))
               !!! token_data source) = true /\
  (forall w,
      source ∈ tokens (canvas g) ->
      source ∈ realFires
                 {| this := w;
                    world := canvas (snd (createWildfire Resolved source f t g)) |}) /\
  (forall err, createWildfire (Rejected err) source f t g = (Raised err, g)).
Proof.
  intros Hcs Hin. destruct g as [W fs cs0 ms]. cbn in Hcs, Hin. subst cs0.
  unfold createWildfire, constructor, token_set, setFlag_fire, duplicate.
  cbn.
  assert (Hflag :
    data_fire
      ((write (set_fire true) (token_data source) (store W)
          ++ [write (set_fire true) (token_data source) (store W)
                !!! token_data source])
         !!! token_data source) = true).
  { rewrite lookup_grown by by rewrite write_length.
    by rewrite flagged_source. }
  repeat split; try done.
  intros w Hsrc. unfold realFires. cbn [world this store tokens].
  apply list_elem_of_In, filter_In. split; [|exact Hflag].
  by apply list_elem_of_In.
Qed.

(** X10: the create button.  With no token selected it only warns.  With
    a selection it announces the wildfire before creating it, whatever
    becomes of the creation, and creates it from the first selected token
    alone, with the formula ["1d6"] and the target 1; without an active
    combat the announcement is made and nothing is registered. *)
Theorem onCreateButtonClick_uses_first flagged first rest g :
  onCreateButtonClick flagged [] g
  = show (Warn "wildfire.notifications.noSelectedToken") g /\
  onCreateButtonClick flagged (first :: rest) g
  = snd (createWildfire flagged first "1d6" (Js.Num 1)
           (show (Notify "wildfire.notifications.addedWildfire") g)) /\
  messages (onCreateButtonClick flagged (first :: rest) g)
  = messages g ++ [Notify "wildfire.notifications.addedWildfire"] /\
  (combatants g = None ->
   wildfires (onCreateButtonClick flagged (first :: rest) g) = wildfires g) /\
  (forall err,
      wildfires (onCreateButtonClick (Rejected err) (first :: rest) g)
      = wildfires g).
Proof.
  split; [done|]. split; [done|]. split; [|split].
  - unfold onCreateButtonClick, createWildfire.
    destruct flagged; [|done]. cbn.
    destruct (combatants g); [|done]. by destruct (wildfires g).
  - intros Hcs. unfold onCreateButtonClick, createWildfire.
    destruct flagged; [|done]. cbn. by rewrite Hcs.
  - done.
Qed.

End Registry.

(** ** Flagging drawings *)

Section Flagging.

Variable grid : Grid.t.

Lemma set_flammable_twice b d :
  set_flammable b (set_flammable b d) = set_flammable b d.
Proof. done. Qed.

(** The drawings after the update records of [setFlammableDrawings] have
    been merged. *)
Lemma flagged_lookup ids (ds : list Drawing) i :
  fold_left
    (fun ds u => alter (set_flammable (update_flammable u)) (update_id u) ds)
    (map (fun id => {| update_id := id; update_flammable := true |}) ids) ds
    !! i
  = (if bool_decide (i ∈ ids) then set_flammable true else id) <$> (ds !! i).
Proof.
  revert ds. induction ids as [|j ids IH]; intros ds.
  - cbn. by destruct (ds !! i).
  - cbn [map fold_left update_id update_flammable]. rewrite IH.
    destruct (decide (i = j)) as [->|Hne].
    + rewrite list_lookup_alter_eq.
      rewrite (bool_decide_eq_true_2 (j ∈ j :: ids))
        by (apply elem_of_cons; by left).
      destruct (ds !! j); cbn; [|done].
      by case_bool_decide.
    + rewrite list_lookup_alter_ne by done.
      destruct (ds !! i); cbn; [|done].
      rewrite (bool_decide_ext (i ∈ j :: ids) (i ∈ ids)); [done|].
      rewrite elem_of_cons. tauto.
Qed.

Lemma areaContains_set_flammable b d cell :
  areaContains grid (set_flammable b d) cell = areaContains grid d cell.
Proof. done. Qed.

Lemma isInFlammableArea_exists s cell :
  isInFlammableArea grid s cell = true <->
  exists i d, drawings (world s) !! i = Some d /\
              drawing_flammable d = true /\
              areaContains grid d cell = true.
Proof.
  unfold isInFlammableArea, flammableAreas. rewrite existsb_exists. split.
  - intros (d & Hd & Hc). apply filter_In in Hd as [Hd Hf].
    apply list_elem_of_In, list_elem_of_lookup in Hd as [i Hi]. eauto.
  - intros (i & d & Hi & Hf & Hc). exists d. split; [|done].
    apply filter_In. split; [|done].
    apply list_elem_of_In. by eapply list_elem_of_lookup_2.
Qed.

(** X11: [setFlammableDrawings] on a selection whose update resolves flags
    exactly the selected drawings: each drawing keeps its place and its
    geometry, a selected one is flammable afterwards and any other keeps
    its flag.  The count announced is the number of selected drawings; the
    tokens and the store are left alone. *)
Theorem setFlammableDrawings_flags_selection first rest g :
  fst (setFlammableDrawings Resolved (first :: rest) g) = Returned /\
  (forall i,
      drawings (canvas (snd (setFlammableDrawings Resolved (first :: rest) g)))
        !! i
      = (if bool_decide (i ∈ first :: rest)
         then set_flammable true else id) <$> (drawings (canvas g) !! i)) /\
  length (drawings (canvas (snd (setFlammableDrawings Resolved
                                   (first :: rest) g))))
  = length (drawings (canvas g)) /\
  messages (snd (setFlammableDrawings Resolved (first :: rest) g))
  = messages g ++ [NotifyCount "wildfire.notifications.setDrawingsFlammable"
                               (length (first :: rest))] /\
  tokens (canvas (snd (setFlammableDrawings Resolved (first :: rest) g)))
  = tokens (canvas g) /\
  store (canvas (snd (setFlammableDrawings Resolved (first :: rest) g)))
  = store (canvas g).
Proof.
  assert (Hlook : forall i,
    drawings (canvas (snd (setFlammableDrawings Resolved (first :: rest) g)))
      !! i
    = (if bool_decide (i ∈ first :: rest)
       then set_flammable true else id) <$> (drawings (canvas g) !! i)).
  { intros i. unfold setFlammableDrawings, updateMany.
    cbn [fst snd canvas with_canvas show drawings with_drawings].
    apply (flagged_lookup (first :: rest)). }
  split; [done|]. split; [exact Hlook|]. split; [|split; [|done]].
  - apply Nat.le_antisymm; apply Nat.nlt_ge; intros Hlt.
    + destruct (lookup_lt_is_Some_2 _ _ Hlt) as [d Hd].
      specialize (Hlook (length (drawings (canvas g)))).
      rewrite Hd, (lookup_ge_None_2 (drawings (canvas g))) in Hlook by lia.
      done.
    + destruct (lookup_lt_is_Some_2 _ _ Hlt) as [d Hd].
      specialize (Hlook (length (drawings (canvas
        (snd (setFlammableDrawings Resolved (first :: rest) g)))))).
      rewrite Hd, lookup_ge_None_2 in Hlook by lia.
      by destruct (bool_decide _).
  - unfold setFlammableDrawings. cbn. by rewrite length_map.
Qed.

(** X12: after [setFlammableDrawings] has flagged a selection, a cell is
    in a flammable area exactly when it overlaps a drawing that was flagged
    before or that is among the selected ones; so flagging never takes a
    cell out of the flammable areas. *)
Theorem flagged_selection_is_flammable first rest g w cell :
  (isInFlammableArea grid
     {| this := w;
        world := canvas (snd (setFlammableDrawings Resolved (first :: rest) g)) |}
     cell = true <->
   exists i d,
     drawings (canvas g) !! i = Some d /\
     areaContains grid d cell = true /\
     (drawing_flammable d = true \/ i ∈ first :: rest)) /\
  (isInFlammableArea grid {| this := w; world := canvas g |} cell = true ->
   isInFlammableArea grid
     {| this := w;
        world := canvas (snd (setFlammableDrawings Resolved (first :: rest) g)) |}
     cell = true).
Proof.
  assert (Hlook : forall i,
    drawings (canvas (snd (setFlammableDrawings Resolved (first :: rest) g)))
      !! i
    = (if bool_decide (i ∈ first :: rest)
       then set_flammable true else id) <$> (drawings (canvas g) !! i)).
  { intros i. unfold setFlammableDrawings, updateMany.
    cbn [fst snd canvas with_canvas show drawings with_drawings].
    apply (flagged_lookup (first :: rest)). }
  assert (Hiff :
    isInFlammableArea grid
      {| this := w;
         world := canvas (snd (setFlammableDrawings Resolved (first :: rest) g)) |}
      cell = true <->
    exists i d,
      drawings (canvas g) !! i = Some d /\
      areaContains grid d cell = true /\
      (drawing_flammable d = true \/ i ∈ first :: rest)).
  { rewrite isInFlammableArea_exists. cbn [world]. split.
    - intros (i & d' & Hi & Hf & Hc). rewrite Hlook in Hi.
      destruct (drawings (canvas g) !! i) as [d|] eqn:Hd; [|done].
      exists i, d. split; [done|]. cbn in Hi. injection Hi as <-.
      case_bool_decide; cbn in *; auto.
    - intros (i & d & Hd & Hc & Hor).
      exists i. eexists. rewrite Hlook, Hd. cbn. split; [done|].
      case_bool_decide; cbn; [done|]. destruct Hor; [done|tauto]. }
  split; [exact Hiff|].
  intros Hbefore. apply Hiff.
  apply isInFlammableArea_exists in Hbefore as (i & d & Hd & Hf & Hc).
  cbn in Hd. eauto 6.
Qed.

(** X13: the edges of [setFlammableDrawings].  With nothing selected it
    only warns and returns.  When the host rejects the update the call
    raises, and the count has been announced all the same although no
    drawing has changed. *)
Theorem setFlammableDrawings_edges o err first rest g :
  setFlammableDrawings o [] g
  = (Returned, show (Warn "wildfire.notifications.noSelectedDrawings") g) /\
  fst (setFlammableDrawings (Rejected err) (first :: rest) g) = Raised err /\
  canvas (snd (setFlammableDrawings (Rejected err) (first :: rest) g))
  = canvas g /\
  messages (snd (setFlammableDrawings (Rejected err) (first :: rest) g))
  = messages g ++ [NotifyCount "wildfire.notifications.setDrawingsFlammable"
                               (S (length rest))].
Proof.
  split; [done|]. unfold setFlammableDrawings. cbn.
  by rewrite length_map.
Qed.

End Flagging.

(** ** The combat hook *)

Section CombatHook.

Variable grid : Grid.t.
Variable Roll : string -> nat -> Z.








End CombatHook.

(** ** From one step to the next *)

Section Onward.

Variable grid : Grid.t.
Variable Roll : string -> nat -> Z.



End Onward.

(** ** The properties on concrete scenes *)

Section Targets.

Variable grid : Grid.t.
Variable Roll : string -> nat -> Z.

(** X19: targets that are no finite number.  Every visit of a flammable
    cell makes its roll; against a target that converts to NaN, such as a
    string that is no numeric literal, or to the negative infinity, no
    total is below the target and the cell is lit whatever was rolled;
    against the positive infinity every total is below it and nothing is
    ever lit. *)
Theorem target_that_is_no_finite_number ch cell s :
  wf s ->
  isFlammable grid s cell = true ->
  rolled (world (spreadToCell grid Roll cell ch s))
  = rolled (world s)
    ++ [(cell, Roll (formula ch) (length (rolled (world s))))] /\
  (Js.ToNumeric (target ch) = Js.NaN \/
   Js.ToNumeric (target ch) = Js.Infinity true ->
   pending (spreadToCell grid Roll cell ch s)
   = pending s ++ [getPixelPos grid cell]) /\
  (Js.ToNumeric (target ch) = Js.Infinity false ->
   newFires (this (spreadToCell grid Roll cell ch s)) = newFires (this s)).
Proof.
  intros Hwf Hfl.
  destruct (spreadToCell_cases grid Roll cell ch s Hwf) as (_ & _ & Hc).
  destruct Hc as [[? _]|[(_ & Hlt & Hr & Hn & _ & Hp)|(_ & Hlt & Hr & Hn & Hp)]];
    [congruence| |].
  - split; [done|]. split; [|done].
    unfold Js.lt in Hlt. by intros [Ht|Ht]; rewrite Ht in Hlt.
  - split; [done|]. split; [done|].
    unfold Js.lt in Hlt. intros Ht. by rewrite Ht in Hlt.
Qed.

End Targets.

Section FurtherScenes.




Lemma fire_reaches_neighbours_only_witness :
  wf (constructor Scene.source None Scene.one_fire) /\
  newFires (this (constructor Scene.source None Scene.one_fire)) = [] /\
  (length (rolled_since (constructor Scene.source None Scene.one_fire)
             (spread_enter Scene.grid (Scene.always 1) default_chance
                (constructor Scene.source None Scene.one_fire)))
   <= length (visits Scene.grid (constructor Scene.source None Scene.one_fire)))%nat.
Proof.
  split; [concrete_wf|]. split; [reflexivity|].
  apply (fire_reaches_neighbours_only Scene.grid (Scene.always 1) default_chance
           (constructor Scene.source None Scene.one_fire));
    [concrete_wf|reflexivity].
Defined.

(** On a canvas whose only token is not a fire, a step notifies 0. *)
Lemma nothing_to_burn_witness :
  spreading (this (constructor Scene.source None Stage.fresh)) = false /\
  newFires (this (constructor Scene.source None Stage.fresh)) = [] /\
  (realFires (constructor Scene.source None Stage.fresh) = [] \/
   flammableAreas (constructor Scene.source None Stage.fresh) = []) /\
  snd (spread Scene.grid (Scene.always 1) None Resolved
         (constructor Scene.source None Stage.fresh))
  = with_world
      (with_notified
         (notified (world (constructor Scene.source None Stage.fresh)) ++ [0%nat])
         (world (constructor Scene.source None Stage.fresh)))
      (constructor Scene.source None Stage.fresh).
Proof.
  split; [reflexivity|]. split; [reflexivity|]. split; [by left|].
  apply (nothing_to_burn Scene.grid (Scene.always 1) None
           (constructor Scene.source None Stage.fresh));
    [reflexivity|reflexivity|by left].
Defined.

Lemma areaContains_shared_pixel_witness :
  0 < drawing_width Scene.field /\ 0 < drawing_height Scene.field /\
  0 < gridSize Scene.grid /\
  (areaContains Scene.grid Scene.field (2, 2) = true <->
   exists x y,
     (drawing_x Scene.field <= x < drawing_x Scene.field + drawing_width Scene.field /\
      drawing_y Scene.field <= y < drawing_y Scene.field + drawing_height Scene.field) /\
     (fst (getPixelPos Scene.grid (2, 2)) <= x
        < fst (getPixelPos Scene.grid (2, 2)) + gridSize Scene.grid /\
      snd (getPixelPos Scene.grid (2, 2)) <= y
        < snd (getPixelPos Scene.grid (2, 2)) + gridSize Scene.grid)).
Proof.
  split; [reflexivity|]. split; [reflexivity|]. split; [reflexivity|].
  apply (areaContains_shared_pixel Scene.grid Scene.field (2, 2));
    reflexivity.
Defined.

Lemma notified_count_is_the_batch_witness :
  reachable Scene.grid (Scene.always 1) Stage.waiting /\
  step Scene.grid (Scene.always 1) Stage.waiting CommitResolved
    Stage.committed /\
  exists data,
    inflight Stage.waiting = [AwaitCreateMany data] /\
    newFires (this (state Stage.waiting)) = data /\
    notified (world (state Stage.committed))
    = notified (world (state Stage.waiting)) ++ [length data] /\
    newFires (this (state Stage.committed)) = [] /\
    inflight Stage.committed = [AwaitCreateNewFires].
Proof.
  assert (Hreach : reachable Scene.grid (Scene.always 1) Stage.waiting).
  { unfold Stage.waiting.
    eapply reachable_step; [apply reachable_new|].
    apply (step_enter Scene.grid (Scene.always 1) None
             (constructor Scene.source None Scene.one_fire) []);
      reflexivity. }
  assert (Hstep :
    step Scene.grid (Scene.always 1) Stage.waiting CommitResolved
      Stage.committed).
  { unfold Stage.waiting, Stage.committed.
    apply (step_resolved Scene.grid (Scene.always 1) Stage.entered []
             (newFires (this Stage.entered)) []). }
  split; [exact Hreach|]. split; [exact Hstep|].
  exact (notified_count_is_the_batch Scene.grid (Scene.always 1)
           Stage.waiting Stage.committed Hreach Hstep).
Defined.

Lemma createWildfire_registers_witness :
  combatants (Stage.in_combat Stage.fresh) = Some [] /\
  (token_data Scene.source
   < length (store (canvas (Stage.in_combat Stage.fresh))))%nat /\
  fst (createWildfire Resolved Scene.source "1d6" (Js.Num 1)
         (Stage.in_combat Stage.fresh)) = Returned.
Proof.
  split; [reflexivity|]. split; [cbn; lia|].
  apply (createWildfire_registers Scene.source "1d6" (Js.Num 1)
           (Stage.in_combat Stage.fresh) []); [reflexivity|cbn; lia].
Defined.

Lemma createWildfire_without_combat_witness :
  combatants (Stage.no_combat Stage.fresh) = None /\
  (token_data Scene.source
   < length (store (canvas (Stage.no_combat Stage.fresh))))%nat /\
  fst (createWildfire Resolved Scene.source "1d6" (Js.Num 1)
         (Stage.no_combat Stage.fresh)) = Raised "TypeError".
Proof.
  split; [reflexivity|]. split; [cbn; lia|].
  apply (createWildfire_without_combat Scene.source "1d6" (Js.Num 1)
           (Stage.no_combat Stage.fresh)); [reflexivity|cbn; lia].
Defined.




(** The target ["fire"] is no number: the cell next to the fire is lit on
    a roll of 1. *)
Lemma target_that_is_no_finite_number_witness :
  wf (constructor Scene.source None Scene.one_fire) /\
  isFlammable Scene.grid (constructor Scene.source None Scene.one_fire) (0, 1)
  = true /\
  Js.ToNumeric (Js.Str "fire") = Js.NaN /\
  pending (spreadToCell Scene.grid (Scene.always 1) (0, 1)
             {| formula := "1d6"; target := Js.Str "fire" |}
             (constructor Scene.source None Scene.one_fire))
  = pending (constructor Scene.source None Scene.one_fire)
    ++ [getPixelPos Scene.grid (0, 1)].
Proof.
  split; [concrete_wf|]. split; [reflexivity|]. split; [reflexivity|].
  apply (target_that_is_no_finite_number Scene.grid (Scene.always 1)
           {| formula := "1d6"; target := Js.Str "fire" |} (0, 1)
           (constructor Scene.source None Scene.one_fire));
    [concrete_wf|reflexivity|left; reflexivity].
Defined.

(** Two steps on the end to end scene: the second step ignites the cells
    next to the fires of the first and none of the cells that burn. *)
Example second_step :
  burning (snd (spread Scene.grid (Scene.always 1) None Resolved
                  (constructor Scene.source None Scene.one_fire)))
  = [(0, 0); (50, 0); (0, 50); (50, 50)] /\
  pending (spread_enter Scene.grid (Scene.always 1) default_chance
             (snd (spread Scene.grid (Scene.always 1) None Resolved
                     (constructor Scene.source None Scene.one_fire))))
  = [(100, 0); (100, 50); (0, 100); (50, 100); (100, 100)].
Proof. split; reflexivity. Qed.

End FurtherScenes.
